(** * Membercoin consensus kernel: interest accrual, rate table, header hashing

    A shallow embedding of
      - [src/amount.h]                  (COIN, MAX_MONEY, MoneyRange),
      - [src/primitives/transaction.cpp] (rateTable, getRateForAmount,
        initRateTable, GetInterest, CTxOut::GetValueWithInterest),
      - [src/primitives/block.h], [src/primitives/block.cpp]
        (CBlockHeader, GetHash, GetMidHash, FindBestPatternHash,
        GetWorkForDifficultyBits),
      - the rate-data check of AppInit2,
    followed by the properties the specification states about them, and of
      - the transaction totals, sizes and data outputs of
        [src/primitives/transaction.cpp], [CBlock::VersionKnown] and header
        equality of [src/primitives/block.h], [GetMaxBlockSigOpsCount] of
        [src/consensus/consensus.h], the register and deletion commands of
        [src/bitcoin-tx.cpp] and the connection and mempool limits of
        AppInit2,
    with further properties of them.

    C++ integers are integers of [Z] with the wrap-around of their width
    written out; the static [rateTable] array is a list updated by index;
    code that can throw or leave its array returns [option]. *)

From Stdlib Require Import ZArith Lia String Ascii List Uint63.
From stdpp Require Import base option list.

Local Open Scope Z_scope.

(** ** Fixed-width integers *)

Definition wrap_unsigned (w x : Z) : Z := x mod 2 ^ w.
Definition wrap_signed (w x : Z) : Z := (x + 2 ^ (w - 1)) mod 2 ^ w - 2 ^ (w - 1).

Definition to_uint32 : Z -> Z := wrap_unsigned 32.
Definition to_uint64 : Z -> Z := wrap_unsigned 64.
Definition to_int : Z -> Z := wrap_signed 32.
Definition to_int64 : Z -> Z := wrap_signed 64.

Definition INT_MAX : Z := 2147483647.

(** ** arith_uint256 *)

Module arith_uint256.

(** Modelled from the spec: class arith_uint256 (arith_uint256.h and
    arith_uint256.cpp are not under src/): "a 256-bit unsigned type with
    wrapping add/sub, ... truncating divide"; a value is an integer in
    [0, 2^256).  Division by zero throws (here [None]). *)
Definition of_uint64 (b : Z) : Z := to_uint64 b.
Definition mul (a b : Z) : Z := wrap_unsigned 256 (a * b).
Definition add (a b : Z) : Z := wrap_unsigned 256 (a + b).
Definition not (a : Z) : Z := 2 ^ 256 - 1 - a.
Definition div (a b : Z) : option Z := if b =? 0 then None else Some (a / b).
Definition GetLow64 (a : Z) : Z := a mod 2 ^ 64.

(** Modelled from the spec: arith_uint256::SetCompact (same missing file):
    "the compact target encoding packs a 256-bit integer as a 1-byte
    exponent and a 3-byte signed mantissa; decoding may flag negative or
    overflow targets".  Returns the decoded value with the two flags. *)
Definition SetCompact (nCompact : Z) : Z * bool * bool :=
  let nSize := Z.shiftr nCompact 24 in
  let nWord := Z.land nCompact 8388607 in
  let nWord := if nSize <=? 3 then Z.shiftr nWord (8 * (3 - nSize)) else nWord in
  let value := if nSize <=? 3 then nWord
               else wrap_unsigned 256 (Z.shiftl nWord (8 * (nSize - 3))) in
  let fNegative := negb (nWord =? 0) && negb (Z.land nCompact 8388608 =? 0) in
  let fOverflow := negb (nWord =? 0) &&
                   ((34 <? nSize) || ((255 <? nWord) && (33 <? nSize))
                    || ((65535 <? nWord) && (32 <? nSize))) in
  (value, fNegative, fOverflow).

End arith_uint256.

(** ** amount.h *)

Definition COIN : Z := 100000000.
Definition MAX_MONEY : Z := 1000000000 * COIN.
Definition MoneyRange (nValue : Z) : bool := (0 <=? nValue) && (nValue <=? MAX_MONEY).

(** ** Loops and arrays *)

(** [for (int i = lo; i < hi; i++) body], the body threading a state and
    able to fail. *)
Fixpoint for_loop {St : Type} (n : nat) (i : Z) (body : Z -> St -> option St) (s : St)
  : option St :=
  match n with
  | O => Some s
  | S n' => match body i s with
            | Some s' => for_loop n' (i + 1) body s'
            | None => None
            end
  end.

Definition for_range {St : Type} (lo hi : Z) (body : Z -> St -> option St) (s : St)
  : option St :=
  for_loop (Z.to_nat (hi - lo)) lo body s.

(** Reading and writing a C array; an index outside the array is undefined
    behaviour, [None] here. *)
Definition array_read (a : list Z) (i : Z) : option Z :=
  if i <? 0 then None else a !! Z.to_nat i.

Definition array_write (a : list Z) (i : Z) (v : Z) : option (list Z) :=
  if (0 <=? i) && (i <? Z.of_nat (length a)) then Some (<[Z.to_nat i := v]> a) else None.

(** ** strprintf *)

Definition digit_char (d : Z) : ascii :=
  match d with
  | 0 => "0" | 1 => "1" | 2 => "2" | 3 => "3" | 4 => "4" | 5 => "5" | 6 => "6"
  | 7 => "7" | 8 => "8" | 9 => "9" | 10 => "a" | 11 => "b" | 12 => "c" | 13 => "d"
  | 14 => "e" | _ => "f"
  end%char.

(** The digits of [z >= 0] in [base], most significant first, in front of
    [acc]; twenty digits cover every 64-bit value. *)
Fixpoint digits (base : Z) (fuel : nat) (z : Z) (acc : string) : string :=
  match fuel with
  | O => acc
  | S f => let acc' := String (digit_char (z mod base)) acc in
           if z <? base then acc' else digits base f (z / base) acc'
  end.

(** Modelled from the spec: tinyformat (tinyformat.h is not under src/).
    The conversions the rate dump uses: [%d] of a signed integer and [%x] of
    an unsigned one; tinyformat takes the width from the argument's type, so
    a 64-bit argument is printed in full. *)
Definition fmt_d (z : Z) : string :=
  if z <? 0 then String "-" (digits 10 20 (- z) EmptyString) else digits 10 20 z EmptyString.
Definition fmt_x (z : Z) : string := digits 16 20 z EmptyString.

Definition newline : string := String (ascii_of_nat 10) EmptyString.

(** [strprintf("%d %x\n", i, r)] *)
Definition strprintf_d_x (i r : Z) : string :=
  String.append (fmt_d i) (String.append " " (String.append (fmt_x r) newline)).

(** [strprintf("rate: %d %d\n", i, a)] *)
Definition strprintf_rate (i a : Z) : string :=
  String.append "rate: "
    (String.append (fmt_d i) (String.append " " (String.append (fmt_d a) newline))).

(** ** primitives/transaction.cpp: the interest engine *)

Definition ONEDAY : Z := 1108.
Definition MAXINTERESTPERIOD : Z := to_int (ONEDAY * 365).
Definition MAXINTERESTPERIODPLUSONE : Z := to_int (ONEDAY * 365 + 1).

(** [static uint64_t rateTable[1108*365+1]]: zero until [initRateTable] runs. *)
Definition rateTable_static : list Z := replicate (Z.to_nat (1108 * 365 + 1)) 0.

Definition getRateForAmount (rateTable : list Z) (periods theAmount : Z) : option Z :=
  let amount256 := arith_uint256.of_uint64 theAmount in
  r ← array_read rateTable periods;
  let rate256 := arith_uint256.of_uint64 r in
  r0 ← array_read rateTable 0;
  let rate0256 := arith_uint256.of_uint64 r0 in
  let product := arith_uint256.mul amount256 rate256 in
  result ← arith_uint256.div product rate0256;
  Some (to_int64 (to_uint64 (arith_uint256.GetLow64 result - theAmount))).

(** The body of the first loop of [initRateTable]: the next entry and its
    row. *)
Definition fill_rate (i : Z) (st : list Z * string) : option (list Z * string) :=
  let '(rateTable, str) := st in
  prev ← array_read rateTable (to_int (i - 1));
  rateTable ← array_write rateTable i (to_uint64 (prev + Z.shiftr prev 22));
  cur ← array_read rateTable i;
  Some (rateTable, String.append str (strprintf_d_x i cur)).

(** The body of the second loop: the row of the interest on 100 coins. *)
Definition dump_rate (rateTable : list Z) (i : Z) (str : string) : option string :=
  rate ← getRateForAmount rateTable i (to_int64 (COIN * 100));
  Some (String.append str (strprintf_rate i rate)).

Definition initRateTable (rateTable : list Z) : option (list Z * string) :=
  rateTable ← array_write rateTable 0 1;
  r0 ← array_read rateTable 0;
  rateTable ← array_write rateTable 0 (to_uint64 (Z.shiftl r0 62));
  '(rateTable, str) ←
    for_range 1 (to_int (MAXINTERESTPERIOD + 1)) fill_rate (rateTable, EmptyString);
  str ← for_range 0 MAXINTERESTPERIOD (dump_rate rateTable) str;
  Some (rateTable, str).

Definition GetInterest (rateTable : list Z) (nValue outputBlockHeight valuationHeight : Z)
  : option Z :=
  if (outputBlockHeight <? 0) || (valuationHeight <? 0)
     || (valuationHeight <? outputBlockHeight)
  then Some nValue
  else
    let blocks := Z.min MAXINTERESTPERIOD (to_int (valuationHeight - outputBlockHeight)) in
    standardInterest ← getRateForAmount rateTable blocks nValue;
    Some (to_int64 (nValue + standardInterest)).

Record CTxOut := { nValue : Z; scriptPubKey : list Z }.

Definition GetValueWithInterest (rateTable : list Z) (out : CTxOut)
    (outputBlockHeight valuationHeight : Z) : option Z :=
  GetInterest rateTable (nValue out) outputBlockHeight valuationHeight.

(** The persisted UTXO record of the data model. *)
Record Coin := { out : CTxOut; creationHeight : Z; isCoinbase : bool }.

Definition faceValue (c : Coin) : Z := nValue (out c).

(** ** MurmurHash3 and the rate-data check of AppInit2 *)

Definition ROTL32 (x r : Z) : Z :=
  to_uint32 (Z.lor (Z.shiftl x r) (Z.shiftr x (32 - r))).

Definition ReadLE32 (b0 b1 b2 b3 : Z) : Z :=
  Z.lor (Z.lor b0 (Z.shiftl b1 8)) (Z.lor (Z.shiftl b2 16) (Z.shiftl b3 24)).

(** [k1 *= c1; k1 = ROTL32(k1, 15); k1 *= c2] *)
Definition murmur_k (k1 : Z) : Z :=
  to_uint32 (ROTL32 (to_uint32 (k1 * 3432918353)) 15 * 461845907).

(** [h1 ^= k1; h1 = ROTL32(h1, 13); h1 = h1 * 5 + 0xe6546b64] *)
Definition murmur_block (h1 k1 : Z) : Z :=
  to_uint32 (ROTL32 (Z.lxor h1 (murmur_k k1)) 13 * 5 + 3864292196).

Fixpoint murmur_body (h1 : Z) (data : list Z) {struct data} : Z * list Z :=
  match data with
  | b0 :: b1 :: b2 :: b3 :: rest => murmur_body (murmur_block h1 (ReadLE32 b0 b1 b2 b3)) rest
  | tail => (h1, tail)
  end.

Definition murmur_tail (h1 : Z) (tail : list Z) : Z :=
  match tail with
  | [t0] => Z.lxor h1 (murmur_k t0)
  | [t0; t1] => Z.lxor h1 (murmur_k (Z.lxor (Z.shiftl t1 8) t0))
  | [t0; t1; t2] => Z.lxor h1 (murmur_k (Z.lxor (Z.lxor (Z.shiftl t2 16) (Z.shiftl t1 8)) t0))
  | _ => h1
  end.

Definition fmix32 (h : Z) : Z :=
  let h := Z.lxor h (Z.shiftr h 16) in
  let h := to_uint32 (h * 2246822507) in
  let h := Z.lxor h (Z.shiftr h 13) in
  let h := to_uint32 (h * 3266489909) in
  Z.lxor h (Z.shiftr h 16).

(** Modelled from the spec: MurmurHash3 (hash.cpp is not under src/); the
    spec names "the Murmur3 digest ... seeded at 1989", which is the 32-bit
    x86 MurmurHash3 over a byte vector: four-byte little-endian blocks, a
    tail of up to three bytes, the length, and the final avalanche. *)
Definition MurmurHash3 (nHashSeed : Z) (vDataToHash : list Z) : Z :=
  let '(h1, tail) := murmur_body (to_uint32 nHashSeed) vDataToHash in
  let h1 := murmur_tail h1 tail in
  let h1 := Z.lxor h1 (to_uint32 (Z.of_nat (length vDataToHash))) in
  fmix32 h1.

(** [std::vector<unsigned char>(s.begin(), s.end())] *)
Fixpoint bytes_of_string (s : string) : list Z :=
  match s with
  | EmptyString => []
  | String c r => Z.of_N (N_of_ascii c) :: bytes_of_string r
  end.

Inductive startup : Type :=
  | Started (rateTable : list Z)
  | Aborted.

(** [assert(rateDataHash==-753007581)] *)
Definition rate_data_assert (rateDataHash : Z) (rateTable : list Z) : startup :=
  if rateDataHash =? -753007581 then Started rateTable else Aborted.

(** The rate-data lines of AppInit2; [int rateDataHash] reads the unsigned
    digest as a signed 32-bit integer. *)
Definition AppInit2_rate_check (rateTable : list Z) : option startup :=
  '(rateTable, rateData) ← initRateTable rateTable;
  let data2 := bytes_of_string rateData in
  let rateDataHash := to_int (MurmurHash3 1989 data2) in
  Some (rate_data_assert rateDataHash rateTable).

(** ** primitives/block.h, primitives/block.cpp *)

(** A [uint256] is its 32 bytes; [UintToArith256] reads them least
    significant byte first. *)
Fixpoint UintToArith256 (bytes : list Z) : Z :=
  match bytes with
  | [] => 0
  | b :: r => b + 256 * UintToArith256 r
  end.

(** The [n] low bytes of [x], least significant first: how serialize.h
    writes a fixed-width integer, and how a little-endian host stores it. *)
Fixpoint le_bytes (n : nat) (x : Z) : list Z :=
  match n with
  | O => []
  | S n' => x mod 256 :: le_bytes n' (x / 256)
  end.

Record CBlockHeader := {
  nVersion : Z;
  hashPrevBlock : list Z;
  hashMerkleRoot : list Z;
  nTime : Z;
  nBits : Z;
  nNonce : Z
}.

(** The header's members hold values of their C++ types. *)
Definition header_wf (h : CBlockHeader) : Prop :=
  - 2 ^ 31 <= nVersion h < 2 ^ 31 /\
  length (hashPrevBlock h) = 32%nat /\ length (hashMerkleRoot h) = 32%nat /\
  0 <= nTime h < 2 ^ 32 /\ 0 <= nBits h < 2 ^ 32 /\ 0 <= nNonce h < 2 ^ 32.

(** [SerializationOp] of CBlockHeader: the six READWRITE lines in order. *)
Definition Serialize (h : CBlockHeader) : list Z :=
  le_bytes 4 (to_uint32 (nVersion h)) ++ hashPrevBlock h ++ hashMerkleRoot h
  ++ le_bytes 4 (nTime h) ++ le_bytes 4 (nBits h) ++ le_bytes 4 (nNonce h).

(** The bytes from [BEGIN(nVersion)] to [END(nNonce)]: the six members as
    they lie in the object, one after the other, on a little-endian host. *)
Definition object_bytes (h : CBlockHeader) : list Z :=
  concat [ le_bytes 4 (to_uint32 (nVersion h)); hashPrevBlock h; hashMerkleRoot h;
           le_bytes 4 (nTime h); le_bytes 4 (nBits h); le_bytes 4 (nNonce h) ].

(** hashwrapper.h and patternsearch.h are not under src/: the two hash
    functions and the pattern search are the interface the header code is
    written against. *)
Class HashWrapper := {
  HashBlake3 : list Z -> list Z;
  Hash : list Z -> list Z
}.

Class PatternSearch := {
  pattern_search : list Z -> list Z -> Z -> list (Z * Z)
}.

Definition GetHash `{HashWrapper} (h : CBlockHeader) : list Z :=
  HashBlake3 (object_bytes h).

Definition GetMidHash `{HashWrapper} (h : CBlockHeader) : list Z :=
  Hash (object_bytes h).

(** [uint256S("0xff..ff")] *)
Definition worst_hash : list Z := replicate 32 255.

(** [while (newThreadNumber < nThreads) newThreadNumber *= 2;] on [int];
    [None] when the fuel runs out. *)
Fixpoint round_threads (fuel : nat) (newThreadNumber nThreads : Z) : option Z :=
  match fuel with
  | O => None
  | S f => if newThreadNumber <? nThreads
           then round_threads f (to_int (newThreadNumber * 2)) nThreads
           else Some newThreadNumber
  end.

(** The candidate loop: the state is [smallestHashSoFar],
    [smallestHashLocation], [smallestHashFinalCalculation]. *)
Definition consider_candidate `{HashWrapper} (h : CBlockHeader)
    (st : list Z * Z * Z) (candidate : Z * Z) : list Z * Z * Z :=
  let '(smallestHashSoFar, smallestHashLocation, smallestHashFinalCalculation) := st in
  let fullHash := Hash (object_bytes h) in
  if UintToArith256 fullHash <? UintToArith256 smallestHashSoFar
  then (fullHash, fst candidate, snd candidate)
  else st.

(** Returns the hash together with the value left in [collisions]. *)
Definition FindBestPatternHash `{HashWrapper} `{PatternSearch} (fuel : nat)
    (h : CBlockHeader) (collisions : Z) (scratchpad : list Z) (nThreads : Z)
  : option (list Z * Z) :=
  let smallestHashSoFar := worst_hash in
  if nThreads =? 0 then Some (smallestHashSoFar, collisions)
  else
    let midHash := GetMidHash h in
    nThreads ← round_threads fuel 1 nThreads;
    let results := pattern_search midHash scratchpad nThreads in
    let collisions := to_int (Z.of_nat (length results)) in
    let '(smallestHashSoFar, _, _) :=
      fold_left (consider_candidate h) results (smallestHashSoFar, 0, 0) in
    Some (smallestHashSoFar, collisions).

Definition GetWorkForDifficultyBits (nBits : Z) : option Z :=
  let '(bnTarget, fNegative, fOverflow) := arith_uint256.SetCompact nBits in
  if fNegative || fOverflow || (bnTarget =? 0) then Some 0
  else
    q ← arith_uint256.div (arith_uint256.not bnTarget) (arith_uint256.add bnTarget 1);
    Some (arith_uint256.add q 1).

(** Modelled from the spec: CheckProofOfWork (pow.cpp is not under src/):
    "the Blake3 outer hash, interpreted as a little-endian 256-bit integer,
    is strictly less than the decoded target from bits", negative or
    overflowing targets being "treated as invalid PoW". *)
Definition CheckProofOfWork (hash : list Z) (nBits : Z) : bool :=
  let '(bnTarget, fNegative, fOverflow) := arith_uint256.SetCompact nBits in
  negb fNegative && negb fOverflow && (UintToArith256 hash <? bnTarget).

(** ** Closed forms of the table and of its dump *)

(** The recurrence the first loop of [initRateTable] runs, by index. *)
Fixpoint rate_at (n : nat) : Z :=
  match n with
  | O => to_uint64 (Z.shiftl 1 62)
  | S m => let prev := rate_at m in to_uint64 (prev + Z.shiftr prev 22)
  end.

(** The same recurrence in unbounded integers. *)
Fixpoint rate_raw (n : nat) : Z :=
  match n with
  | O => 2 ^ 62
  | S m => let prev := rate_raw m in prev + Z.shiftr prev 22
  end.

(** The rows [1 .. n] of the first loop and the rows [0 .. n-1] of the
    second, in the order they are appended. *)
Fixpoint rate_rows (n : nat) : string :=
  match n with
  | O => EmptyString
  | S m => String.append (rate_rows m) (strprintf_d_x (Z.of_nat (S m)) (rate_at (S m)))
  end.

Definition interest_of (v : Z) (n : nat) : Z := v * rate_at n / rate_at 0 - v.

Fixpoint interest_rows (n : nat) : string :=
  match n with
  | O => EmptyString
  | S m => String.append (interest_rows m)
             (strprintf_rate (Z.of_nat m) (interest_of (100 * COIN) m))
  end.

Definition is_rate_table (rateTable : list Z) : Prop :=
  length rateTable = Z.to_nat (MAXINTERESTPERIOD + 1) /\
  forall n : nat, Z.of_nat n <= MAXINTERESTPERIOD -> rateTable !! n = Some (rate_at n).

(** [P] holds of the table that [initRateTable] leaves behind when it is run
    on the zero-initialised array, as AppInit2 does. *)
Definition at_startup (P : list Z -> Prop) : Prop :=
  exists rateTable dump,
    initRateTable rateTable_static = Some (rateTable, dump) /\ P rateTable.

(** ** Invariants of the two loops of [initRateTable] *)

(** Before iteration [i] of the first loop: the entries below [i] are
    filled and the rows [1 .. i-1] are written. *)
Definition first_loop_inv (i : Z) (st : list Z * string) : Prop :=
  length (fst st) = Z.to_nat (MAXINTERESTPERIOD + 1) /\
  (forall n : nat, Z.of_nat n < i -> fst st !! n = Some (rate_at n)) /\
  snd st = rate_rows (Z.to_nat (i - 1)).

(** Before iteration [i] of the second loop: all rows of the first loop and
    the rate rows [0 .. i-1] are written. *)
Definition second_loop_inv (i : Z) (str : string) : Prop :=
  str = String.append (rate_rows (Z.to_nat MAXINTERESTPERIOD)) (interest_rows (Z.to_nat i)).

(** ** Sample inputs *)

Definition sample_coin : Coin :=
  {| out := {| nValue := 5 * COIN; scriptPubKey := [] |};
     creationHeight := 100; isCoinbase := false |}.

(** A coin of one satoshi created at height 0. *)
Definition tiny_coin : Coin :=
  {| out := {| nValue := 1; scriptPubKey := [] |};
     creationHeight := 0; isCoinbase := false |}.

(** Two stand-ins for the hash functions, and a search that reports one
    candidate per worker, to run the header code on. *)
Definition sample_hashes : HashWrapper :=
  {| HashBlake3 := fun data => replicate 32 (Z.of_nat (length data));
     Hash := fun data => replicate 32 (Z.of_nat (length data) + 1) |}.

Definition sample_search : PatternSearch :=
  {| pattern_search := fun midHash scratchpad nThreads =>
       map (fun k => (Z.of_nat k, Z.of_nat k)) (seq 0 (Z.to_nat nThreads)) |}.

Definition null_header : CBlockHeader :=
  {| nVersion := 0; hashPrevBlock := replicate 32 0; hashMerkleRoot := replicate 32 0;
     nTime := 0; nBits := 0; nNonce := 0 |}.

(** The reading of "the minimum outer hash over the candidate pairs": the
    least [GetHash] met while going through the candidates, starting from
    the worst hash. *)
Definition minimum_outer_hash `{HashWrapper} (h : CBlockHeader) (results : list (Z * Z))
  : list Z :=
  fold_left (fun best _ => if UintToArith256 (GetHash h) <? UintToArith256 best
                           then GetHash h else best)
            results worst_hash.

(** ** MurmurHash3 as a fold over the bytes *)

Record murmur_state := { ms_h1 : Z; ms_pending : list Z; ms_size : Z }.

Definition murmur_feed (s : murmur_state) (b : Z) : murmur_state :=
  match ms_pending s with
  | [b0; b1; b2] =>
      {| ms_h1 := murmur_block (ms_h1 s) (ReadLE32 b0 b1 b2 b);
         ms_pending := []; ms_size := ms_size s + 1 |}
  | pending =>
      {| ms_h1 := ms_h1 s; ms_pending := pending ++ [b]; ms_size := ms_size s + 1 |}
  end.

Definition murmur_start (nHashSeed : Z) : murmur_state :=
  {| ms_h1 := to_uint32 nHashSeed; ms_pending := []; ms_size := 0 |}.

Definition murmur_finish (s : murmur_state) : Z :=
  fmix32 (Z.lxor (murmur_tail (ms_h1 s) (ms_pending s)) (to_uint32 (ms_size s))).

Definition murmur_feed_string (s : murmur_state) (str : string) : murmur_state :=
  fold_left murmur_feed (bytes_of_string str) s.

(** ** The digest of the dump, on machine integers

    The dump has some 18.7 million bytes.  [Fast] computes its digest row
    by row on 63-bit machine integers, without building the string; below it
    is shown to compute [MurmurHash3] of the dump of [initRateTable]. *)

Module Fast.
Local Open Scope uint63_scope.

Definition mask32 : int := 4294967295.
Definition mul32 (a b : int) : int := (a * b) land mask32.
Definition rotl15 (x : int) : int := ((x << 15) lor (x >> 17)) land mask32.
Definition rotl13 (x : int) : int := ((x << 13) lor (x >> 19)) land mask32.
Definition k_mix (k : int) : int := mul32 (rotl15 (mul32 k 3432918353)) 461845907.
Definition block (h k : int) : int :=
  (rotl13 (h lxor k_mix k) * 5 + 3864292196) land mask32.
Definition read_le32 (b0 b1 b2 b3 : int) : int :=
  (b0 lor (b1 << 8)) lor ((b2 << 16) lor (b3 << 24)).

(** [k x], with [x] evaluated first: the kernel reduces by need, and a
    value that is only passed along would pile up unevaluated. *)
Definition strict {A : Type} (x : int) (k : int -> A) : A :=
  if x =? 0 then k 0 else k x.

(** The bytes of the block being filled. *)
Inductive pending := P0 | P1 (b0 : int) | P2 (b0 b1 : int) | P3 (b0 b1 b2 : int).

Record state := { h1 : int; size : int; rest : pending }.

Fixpoint feed_all (l : list int) (h n : int) (p : pending) : state :=
  match l with
  | [] => strict n (fun n => {| h1 := h; size := n; rest := p |})
  | b :: t =>
      match p with
      | P0 => feed_all t h (n + 1) (P1 b)
      | P1 b0 => feed_all t h (n + 1) (P2 b0 b)
      | P2 b0 b1 => feed_all t h (n + 1) (P3 b0 b1 b)
      | P3 b0 b1 b2 =>
          strict (block h (read_le32 b0 b1 b2 b)) (fun h' => feed_all t h' (n + 1) P0)
      end
  end.

Definition feed_state (l : list int) (s : state) : state :=
  feed_all l (h1 s) (size s) (rest s).

Definition tail (s : state) : int :=
  match rest s with
  | P0 => h1 s
  | P1 b0 => h1 s lxor k_mix b0
  | P2 b0 b1 => h1 s lxor k_mix ((b1 << 8) lxor b0)
  | P3 b0 b1 b2 => h1 s lxor k_mix (((b2 << 16) lxor (b1 << 8)) lxor b0)
  end.

Definition fmix (h : int) : int :=
  let h := h lxor (h >> 16) in
  let h := mul32 h 2246822507 in
  let h := h lxor (h >> 13) in
  let h := mul32 h 3266489909 in
  h lxor (h >> 16).

Definition finish (s : state) : int := fmix (tail s lxor (size s land mask32)).

Definition start (seed : int) : state :=
  {| h1 := seed land mask32; size := 0; rest := P0 |}.

Fixpoint digits (base : int) (fuel : nat) (z : int) (acc : list int) : list int :=
  match fuel with
  | O => acc
  | S f =>
      let d := z mod base in
      let acc' := (if d <? 10 then d + 48 else d + 87) :: acc in
      if z <? base then acc' else digits base f (z / base) acc'
  end.

Definition row1 (i r : int) : list int := digits 10 20 i (32 :: digits 16 20 r [10]).
Definition row2 (i a : int) : list int :=
  114 :: 97 :: 116 :: 101 :: 58 :: 32 :: digits 10 20 i (32 :: digits 10 20 a [10]).

Definition interest100 (r : int) : int :=
  let '(hi, lo) := mulc 10000000000 r in (hi << 1) + (lo >> 62) - 10000000000.

Definition next_rate (r : int) : int := r + (r >> 22).

Fixpoint rows1 (n : nat) (i r : int) (s : state) : state :=
  match n with
  | O => s
  | S n' => let r' := next_rate r in
            match s with
            | Build_state h k p =>
              match feed_all (row1 i r') h k p with
              | Build_state h k p => rows1 n' (i + 1) r' (Build_state h k p)
              end
            end
  end.

Fixpoint rows2 (n : nat) (i r : int) (s : state) : state :=
  match n with
  | O => s
  | S n' => match s with
            | Build_state h k p =>
              match feed_all (row2 i (interest100 r)) h k p with
              | Build_state h k p => rows2 n' (i + 1) (next_rate r) (Build_state h k p)
              end
            end
  end.

(** The digest, continued from state [s], of the rows [1 .. n] followed
    by the rate rows [0 .. n-1]. *)
Definition hash_rows (n : nat) (s : state) : int :=
  finish (rows2 n 0 4611686018427387904 (rows1 n 1 4611686018427387904 s)).

Definition dump_hash (n : nat) : int := hash_rows n (start 1989).

(** The same with a row for index 0 in front. *)
Definition dump_hash_per_index (n : nat) : int :=
  hash_rows n (feed_state (row1 0 4611686018427387904) (start 1989)).
End Fast.

Definition pending_of (p : Fast.pending) : list Z :=
  match p with
  | Fast.P0 => []
  | Fast.P1 b0 => [to_Z b0]
  | Fast.P2 b0 b1 => [to_Z b0; to_Z b1]
  | Fast.P3 b0 b1 b2 => [to_Z b0; to_Z b1; to_Z b2]
  end.

Definition is_byte (b : Z) : Prop := 0 <= b < 256.

(** The machine state [f] stands for the state [m] of the fold. *)
Definition refines (f : Fast.state) (m : murmur_state) : Prop :=
  ms_h1 m = to_Z (Fast.h1 f) /\
  ms_pending m = pending_of (Fast.rest f) /\
  Forall is_byte (pending_of (Fast.rest f)) /\
  to_Z (Fast.size f) = ms_size m mod wB.

(** The dump as "one row per table index" reads: a row for every index from
    0 to [n], then the rate rows. *)
Definition dump_per_table_index (n : nat) : string :=
  String.append (strprintf_d_x 0 (rate_at 0)) (String.append (rate_rows n) (interest_rows n)).

(** ** primitives/transaction.cpp: transactions *)

Module COutPoint.
Record t := { hash : list Z; n : Z }.
End COutPoint.

Record CTxIn := { prevout : COutPoint.t; scriptSig : list Z; nSequence : Z }.

(** The members the constructors of transaction.cpp initialise; [nTxSize]
    caches the serialized size, 0 while it is not computed. *)
Module CTransaction.
Record t := {
  nTxSize : Z;
  nVersion : Z;
  vin : list CTxIn;
  vout : list CTxOut;
  nLockTime : Z
}.
End CTransaction.

Module CMutableTransaction.
Record t := {
  nVersion : Z;
  vin : list CTxIn;
  vout : list CTxOut;
  nLockTime : Z
}.
End CMutableTransaction.

(** [CTransaction::CTransaction(const CMutableTransaction &tx)] *)
Definition CTransaction_of (tx : CMutableTransaction.t) : CTransaction.t :=
  {| CTransaction.nTxSize := 0;
     CTransaction.nVersion := CMutableTransaction.nVersion tx;
     CTransaction.vin := CMutableTransaction.vin tx;
     CTransaction.vout := CMutableTransaction.vout tx;
     CTransaction.nLockTime := CMutableTransaction.nLockTime tx |}.

(** The loop of [GetValueOut] from a running total [nValueOut]; the
    [throw] is [None], and the signed sum is taken to wrap. *)
Fixpoint GetValueOut_loop (nValueOut : Z) (outs : list CTxOut) : option Z :=
  match outs with
  | [] => Some nValueOut
  | it :: rest =>
      let nValueOut := to_int64 (nValueOut + nValue it) in
      if negb (MoneyRange (nValue it)) || negb (MoneyRange nValueOut) then None
      else GetValueOut_loop nValueOut rest
  end.

Definition GetValueOut (tx : CTransaction.t) : option Z :=
  GetValueOut_loop 0 (CTransaction.vout tx).

(** [GetTxSize]: the cached size, or the serialized size when the cache is
    empty; [GetSerializeSize] (serialize.h) is a parameter. *)
Definition GetTxSize (GetSerializeSize : CTransaction.t -> Z) (tx : CTransaction.t) : Z :=
  if CTransaction.nTxSize tx =? 0 then GetSerializeSize tx else CTransaction.nTxSize tx.

(** One iteration of the loop of [CalculateModifiedSize], on [unsigned int]. *)
Definition modified_size_step (nSize : Z) (it : CTxIn) : Z :=
  let offset := to_uint32 (41 + Z.min 110 (to_uint32 (Z.of_nat (length (scriptSig it))))) in
  if offset <? nSize then to_uint32 (nSize - offset) else nSize.

Definition CalculateModifiedSize (GetSerializeSize : CTransaction.t -> Z)
    (tx : CTransaction.t) (nSize : Z) : Z :=
  let nSize := if nSize =? 0 then to_uint32 (GetTxSize GetSerializeSize tx) else nSize in
  fold_left modified_size_step (CTransaction.vin tx) nSize.

(** [script[i]] once the size test has passed. *)
Definition script_at (script : list Z) (i : nat) : Z := nth i script 0.

Section Script.

(** The opcode [OP_RETURN] of script.h, which is not under src/. *)
Variable OP_RETURN : Z.

(** [CTransaction::HasData() const] *)
Definition HasData (tx : CTransaction.t) : bool :=
  existsb (fun out =>
             (1 <=? Z.of_nat (length (scriptPubKey out)))
             && (script_at (scriptPubKey out) 0 =? OP_RETURN))
          (CTransaction.vout tx).

(** [CTransaction::HasData(uint32_t dataID) const] *)
Definition HasData_dataID (tx : CTransaction.t) (dataID : Z) : bool :=
  existsb (fun out =>
             (6 <=? Z.of_nat (length (scriptPubKey out)))
             && (script_at (scriptPubKey out) 0 =? OP_RETURN)
             && (script_at (scriptPubKey out) 1 =? 4)
             && (let thisProto :=
                   ReadLE32 (script_at (scriptPubKey out) 2) (script_at (scriptPubKey out) 3)
                            (script_at (scriptPubKey out) 4) (script_at (scriptPubKey out) 5) in
                 thisProto =? dataID))
          (CTransaction.vout tx).

End Script.

(** ** primitives/block.h: versions and header equality *)

Definition BIP_009_MASK : Z := 536870912.
Definition BASE_VERSION : Z := 536870912.
Definition FORK_BIT_2MB : Z := 268435456.

(** [CBlock::VersionKnown]: [nVersion] and [voteBits] are [int32_t], the
    mask is [uint32_t], so the [&] are taken on the unsigned conversions. *)
Definition VersionKnown (nVersion voteBits : Z) : bool :=
  if (1 <=? nVersion) && (nVersion <=? 4) then true
  else if negb (Z.land (to_uint32 nVersion) BIP_009_MASK =? 0) then
    let v := Z.land (to_uint32 nVersion) (to_uint32 (Z.lnot BIP_009_MASK)) in
    if Z.land v (to_uint32 (Z.lnot voteBits)) =? 0 then true else false
  else false.

(** [CBlockHeader::operator==]; two [uint256] are equal when their bytes
    are. *)
Definition CBlockHeader_eq (a b : CBlockHeader) : bool :=
  (nVersion a =? nVersion b)
  && bool_decide (hashPrevBlock a = hashPrevBlock b)
  && bool_decide (hashMerkleRoot a = hashMerkleRoot b)
  && (nTime a =? nTime b) && (nBits a =? nBits b) && (nNonce a =? nNonce b).

(** ** consensus/consensus.h *)

Definition MAX_BLOCK_SIGOPS_PER_MB : Z := 20000.

(** All of [uint64_t]: the subtraction, the sum and the product wrap. *)
Definition GetMaxBlockSigOpsCount (nBlockSize : Z) : Z :=
  let nMbRoundedUp := to_uint64 (1 + to_uint64 (nBlockSize - 1) / 1000000) in
  to_uint64 (nMbRoundedUp * MAX_BLOCK_SIGOPS_PER_MB).

(** ** bitcoin-tx.cpp *)

(** [std::string::find(c)]: the index of the first [c], [None] for [npos]. *)
Fixpoint string_find (c : ascii) (s : string) : option nat :=
  match s with
  | EmptyString => None
  | String a r => if Ascii.eqb a c then Some 0%nat else S <$> string_find c r
  end.

Section BitcoinTx.

(** [atoi] (utilstrencodings.h) and [UniValue] with its [read] (univalue.h)
    are not under src/. *)
Variable atoi : string -> Z.
Variable UniValue : Type.
Variable read : string -> option UniValue.

(** [static map<string, UniValue> registers], by its lookup. *)
Definition registers_t : Type := string -> option UniValue.

Definition RegisterSetJson (registers : registers_t) (key rawJson : string)
  : option registers_t :=
  val ← read rawJson;
  Some (fun k => if String.eqb k key then Some val else registers k).

Definition RegisterSet (registers : registers_t) (strInput : string) : option registers_t :=
  match string_find ":" strInput with
  | None => None
  | Some pos =>
      if (pos =? 0)%nat || (pos =? String.length strInput - 1)%nat then None
      else
        let key := substring 0 pos strInput in
        let valStr := substring (pos + 1) (String.length strInput - (pos + 1)) strInput in
        RegisterSetJson registers key valStr
  end.

Definition MutateTxDelInput (tx : CMutableTransaction.t) (strInIdx : string)
  : option CMutableTransaction.t :=
  let inIdx := atoi strInIdx in
  if (inIdx <? 0) || (to_int (Z.of_nat (length (CMutableTransaction.vin tx))) <=? inIdx)
  then None
  else Some {| CMutableTransaction.nVersion := CMutableTransaction.nVersion tx;
               CMutableTransaction.vin := delete (Z.to_nat inIdx) (CMutableTransaction.vin tx);
               CMutableTransaction.vout := CMutableTransaction.vout tx;
               CMutableTransaction.nLockTime := CMutableTransaction.nLockTime tx |}.

Definition MutateTxDelOutput (tx : CMutableTransaction.t) (strOutIdx : string)
  : option CMutableTransaction.t :=
  let outIdx := atoi strOutIdx in
  if (outIdx <? 0) || (to_int (Z.of_nat (length (CMutableTransaction.vout tx))) <=? outIdx)
  then None
  else Some {| CMutableTransaction.nVersion := CMutableTransaction.nVersion tx;
               CMutableTransaction.vin := CMutableTransaction.vin tx;
               CMutableTransaction.vout := delete (Z.to_nat outIdx) (CMutableTransaction.vout tx);
               CMutableTransaction.nLockTime := CMutableTransaction.nLockTime tx |}.

End BitcoinTx.

(** ** AppInit2: the connection limits *)

Section ConnectionLimits.

(** 150, or 0 on Windows. *)
Variable MIN_CORE_FILEDESCRIPTORS : Z.
(** [RaiseFileDescriptorLimit] (util.h, not under src/): the number of
    descriptors the system grants. *)
Variable RaiseFileDescriptorLimit : Z -> Z.

(** The lines from [int nBind] to the clamp of [nMaxOutConnections]:
    [nBindArgs] and [nWhitebindArgs] are the two [mapArgs.count], the other
    two arguments what [GetArg] returns; [InitError] is [None], otherwise
    [nMaxConnections] and [nMaxOutConnections]. *)
Definition AppInit2_connection_limits (nBindArgs nWhitebindArgs : Z)
    (argMaxConnections argMaxOutConnections : Z) : option (Z * Z) :=
  let nBind := Z.max (to_int (to_int nBindArgs + to_int nWhitebindArgs)) 1 in
  let nUserMaxConnections := to_int argMaxConnections in
  let nMaxConnections := Z.max nUserMaxConnections 0 in
  let nFD :=
    RaiseFileDescriptorLimit (to_int (to_int (nMaxConnections + MIN_CORE_FILEDESCRIPTORS) + nBind)) in
  if nFD <? MIN_CORE_FILEDESCRIPTORS then None
  else
    let nMaxConnections :=
      Z.min (to_int (to_int (nFD - MIN_CORE_FILEDESCRIPTORS) - nBind)) nMaxConnections in
    let nUserMaxOutConnections := to_int argMaxOutConnections in
    let nMaxOutConnections := Z.max nUserMaxOutConnections 0 in
    let nMaxOutConnections :=
      if nMaxConnections <? nMaxOutConnections then nMaxConnections else nMaxOutConnections in
    Some (nMaxConnections, nMaxOutConnections).

End ConnectionLimits.

(** The mempool limit of AppInit2: [arg] is what [GetArg] returns for
    [-maxmempool]; [InitError] is [None], otherwise [nMempoolSizeMax]. *)
Definition AppInit2_mempool_limit (arg : Z) : option Z :=
  let nMempoolSizeMax := to_int64 (arg * 1000000) in
  let nMempoolSizeMin := Z.shiftl 1 22 in
  if (nMempoolSizeMax <? 0) || (nMempoolSizeMax <? nMempoolSizeMin) then None
  else Some nMempoolSizeMax.

(** ** Periods paid *)

(** The number of periods [GetInterest] pays interest for: none when its
    guard returns the value unchanged, at most [MAXINTERESTPERIOD]. *)
Definition elapsed (outputBlockHeight valuationHeight : Z) : nat :=
  if (outputBlockHeight <? 0) || (valuationHeight <? 0)
     || (valuationHeight <? outputBlockHeight)
  then 0%nat
  else Z.to_nat (Z.min (valuationHeight - outputBlockHeight) MAXINTERESTPERIOD).

(** The sum of the output values, in unbounded integers. *)
Definition total_value (outs : list CTxOut) : Z := foldr (fun out acc => nValue out + acc) 0 outs.

(** ** The header's bytes as the specification words them *)

(** Byte [k] of an integer written "in little-endian": the bits [8k .. 8k+7]
    of its two's complement. *)
Definition int_byte (x : Z) (k : nat) : Z := (x / 256 ^ Z.of_nat k) mod 256.

(** The specification's header: "(version: i32, prevHash: 32 bytes,
    merkleRoot: 32 bytes, time: u32, bits: u32, nonce: u32). Serialized to 80
    bytes in little-endian"; byte [k] of the 80. *)
Definition canonical_byte (h : CBlockHeader) (k : nat) : Z :=
  if (k <? 4)%nat then int_byte (nVersion h) k
  else if (k <? 36)%nat then nth (k - 4) (hashPrevBlock h) 0
  else if (k <? 68)%nat then nth (k - 36) (hashMerkleRoot h) 0
  else if (k <? 72)%nat then int_byte (nTime h) (k - 68)
  else if (k <? 76)%nat then int_byte (nBits h) (k - 72)
  else int_byte (nNonce h) (k - 76).

Definition canonical_serialization (h : CBlockHeader) : list Z :=
  map (canonical_byte h) (seq 0 80).

(** The specification's reading of a hash "as a little-endian 256-bit
    integer": byte [i] weighs [256^i]. *)
Definition little_endian_value (bytes : list Z) : Z :=
  foldr Z.add 0 (imap (fun i b => b * 256 ^ Z.of_nat i) bytes).

(** A header with the compact target of difficulty one, a header whose bits
    decode to the target 126 flagged negative, and a stand-in for the hash
    functions whose outer hash reads as 5. *)
Definition sample_header : CBlockHeader :=
  {| nVersion := 536870912; hashPrevBlock := replicate 32 17;
     hashMerkleRoot := replicate 32 34;
     nTime := 1600000000; nBits := 486604799; nNonce := 2083236893 |}.

Definition negative_target_header : CBlockHeader :=
  {| nVersion := 536870912; hashPrevBlock := replicate 32 17;
     hashMerkleRoot := replicate 32 34;
     nTime := 1600000000; nBits := 33479866; nNonce := 2083236893 |}.

Definition low_hashes : HashWrapper :=
  {| HashBlake3 := fun data => le_bytes 32 5;
     Hash := fun data => le_bytes 32 (Z.of_nat (length data)) |}.

(* ================================================================= *)
(** * Properties *)

Local Arguments Z.to_nat : simpl never.
Local Arguments Z.of_nat : simpl never.
Local Arguments replicate : simpl never.
Local Arguments Z.pow : simpl never.
Local Arguments Z.mul : simpl never.
Local Arguments Z.add : simpl never.
Local Arguments Z.sub : simpl never.
Local Arguments Z.div : simpl never.
Local Arguments Z.modulo : simpl never.
Local Arguments Z.shiftr : simpl never.
Local Arguments Z.shiftl : simpl never.

(** ** Wrap-around is the identity inside the range *)

Lemma wrap_unsigned_id (w x : Z) : 0 <= x < 2 ^ w -> wrap_unsigned w x = x.
Proof. intros H. unfold wrap_unsigned. apply Z.mod_small. exact H. Qed.

Lemma wrap_signed_id (w x : Z) :
  0 < w -> - 2 ^ (w - 1) <= x < 2 ^ (w - 1) -> wrap_signed w x = x.
Proof.
  intros Hw H. unfold wrap_signed.
  assert (E : 2 ^ w = 2 * 2 ^ (w - 1)).
  { replace w with (Z.succ (w - 1)) at 1 by lia. apply Z.pow_succ_r. lia. }
  rewrite Z.mod_small by lia. lia.
Qed.

Lemma to_uint64_id x : 0 <= x < 2 ^ 64 -> to_uint64 x = x.
Proof. apply wrap_unsigned_id. Qed.

Lemma to_uint32_id x : 0 <= x < 2 ^ 32 -> to_uint32 x = x.
Proof. apply wrap_unsigned_id. Qed.

Lemma to_int_id x : - 2 ^ 31 <= x < 2 ^ 31 -> to_int x = x.
Proof. intros H. apply wrap_signed_id; [lia | exact H]. Qed.

Lemma to_int64_id x : - 2 ^ 63 <= x < 2 ^ 63 -> to_int64 x = x.
Proof. intros H. apply wrap_signed_id; [lia | exact H]. Qed.

Lemma MAXINTERESTPERIOD_eq : MAXINTERESTPERIOD = 404420.
Proof. reflexivity. Qed.

(** ** Loop invariants *)

Lemma for_loop_inv {St : Type} (Inv : Z -> St -> Prop) (body : Z -> St -> option St) :
  forall (n : nat) (i : Z) (s : St),
    Inv i s ->
    (forall j t, i <= j < i + Z.of_nat n -> Inv j t ->
                 exists t', body j t = Some t' /\ Inv (j + 1) t') ->
    exists s', for_loop n i body s = Some s' /\ Inv (i + Z.of_nat n) s'.
Proof.
  induction n as [|n IH]; intros i s Hi Hstep.
  - exists s. split; [reflexivity|]. replace (i + Z.of_nat 0) with i by lia. exact Hi.
  - destruct (Hstep i s) as (t' & Hb & Ht'); [lia | exact Hi |].
    destruct (IH (i + 1) t' Ht') as (s' & Hs' & Hinv).
    + intros j t Hj. apply Hstep. lia.
    + exists s'. split.
      * cbn [for_loop]. rewrite Hb. exact Hs'.
      * replace (i + Z.of_nat (S n)) with (i + 1 + Z.of_nat n) by lia. exact Hinv.
Qed.

Lemma for_range_inv {St : Type} (Inv : Z -> St -> Prop) (body : Z -> St -> option St)
    (lo hi : Z) (s : St) :
  lo <= hi ->
  Inv lo s ->
  (forall j t, lo <= j < hi -> Inv j t -> exists t', body j t = Some t' /\ Inv (j + 1) t') ->
  exists s', for_range lo hi body s = Some s' /\ Inv hi s'.
Proof.
  intros Hle H0 Hstep. unfold for_range.
  destruct (for_loop_inv Inv body (Z.to_nat (hi - lo)) lo s H0) as (s' & Hs & Hi).
  - intros j t Hj. apply Hstep. lia.
  - exists s'. split; [exact Hs|].
    replace (lo + Z.of_nat (Z.to_nat (hi - lo))) with hi in Hi by lia. exact Hi.
Qed.

(** ** The rate recurrence never wraps *)

Lemma rate_raw_lower n : 2 ^ 62 <= rate_raw n.
Proof.
  induction n as [|n IH]; cbn [rate_raw]; [lia|].
  assert (0 <= Z.shiftr (rate_raw n) 22) by (apply Z.shiftr_nonneg; lia). lia.
Qed.

Lemma rate_raw_step n : rate_raw n + 2 ^ 40 <= rate_raw (S n).
Proof.
  cbn [rate_raw]. pose proof (rate_raw_lower n) as Hl.
  rewrite Z.shiftr_div_pow2 by lia.
  assert (2 ^ 40 <= rate_raw n / 2 ^ 22).
  { apply Z.div_le_lower_bound; [lia|]. change (2 ^ 22 * 2 ^ 40) with (2 ^ 62). exact Hl. }
  lia.
Qed.

Lemma rate_raw_mono n m : (n <= m)%nat -> rate_raw n <= rate_raw m.
Proof.
  induction 1 as [|m Hle IH]; [lia|].
  pose proof (rate_raw_step m). lia.
Qed.

Lemma rate_raw_final : rate_raw (Z.to_nat 404420) = 5078493949947319000.
Proof. vm_compute. reflexivity. Qed.

Lemma rate_raw_last : rate_raw (Z.to_nat 404420) < 2 ^ 63.
Proof. rewrite rate_raw_final. lia. Qed.

Lemma rate_raw_upper n : Z.of_nat n <= MAXINTERESTPERIOD -> rate_raw n < 2 ^ 63.
Proof.
  rewrite MAXINTERESTPERIOD_eq. intros Hn.
  pose proof (rate_raw_mono n (Z.to_nat 404420) ltac:(lia)).
  pose proof rate_raw_last. lia.
Qed.

Lemma rate_at_raw n : Z.of_nat n <= MAXINTERESTPERIOD -> rate_at n = rate_raw n.
Proof.
  induction n as [|n IH]; intros Hn.
  - reflexivity.
  - cbn [rate_at rate_raw]. rewrite IH by lia.
    apply to_uint64_id.
    pose proof (rate_raw_upper (S n) Hn) as Hu. cbn [rate_raw] in Hu.
    pose proof (rate_raw_lower (S n)) as Hl. cbn [rate_raw] in Hl. lia.
Qed.

Lemma rate_at_bounds n : Z.of_nat n <= MAXINTERESTPERIOD -> 2 ^ 62 <= rate_at n < 2 ^ 63.
Proof.
  intros Hn. rewrite rate_at_raw by exact Hn.
  split; [apply rate_raw_lower | apply rate_raw_upper; exact Hn].
Qed.

Lemma rate_at_0 : rate_at 0 = 2 ^ 62.
Proof. reflexivity. Qed.

Lemma rate_at_succ n :
  Z.of_nat (S n) <= MAXINTERESTPERIOD ->
  rate_at (S n) = rate_at n + Z.shiftr (rate_at n) 22 /\ rate_at n < rate_at (S n).
Proof.
  intros Hn. rewrite (rate_at_raw (S n)) by exact Hn. rewrite (rate_at_raw n) by lia.
  split; [reflexivity|]. pose proof (rate_raw_step n). lia.
Qed.

(** ** Arrays *)

Lemma array_read_nat (a : list Z) (n : nat) : array_read a (Z.of_nat n) = a !! n.
Proof.
  unfold array_read. destruct (Z.ltb_spec (Z.of_nat n) 0) as [H|H]; [lia|].
  rewrite Nat2Z.id. reflexivity.
Qed.

Lemma array_read_Z (a : list Z) (i : Z) : 0 <= i -> array_read a i = a !! Z.to_nat i.
Proof.
  intros Hi. unfold array_read. destruct (Z.ltb_spec i 0) as [H|H]; [lia|reflexivity].
Qed.

Lemma array_write_in (a : list Z) (i v : Z) :
  0 <= i < Z.of_nat (length a) -> array_write a i v = Some (<[Z.to_nat i := v]> a).
Proof.
  intros Hi. unfold array_write.
  destruct (Z.leb_spec 0 i) as [H1|H1]; [|lia].
  destruct (Z.ltb_spec i (Z.of_nat (length a))) as [H2|H2]; [reflexivity|lia].
Qed.

Lemma string_append_assoc (a b c : string) :
  String.append (String.append a b) c = String.append a (String.append b c).
Proof. induction a as [|ch a IH]; cbn [String.append]; [reflexivity | rewrite IH; reflexivity]. Qed.

(** ** getRateForAmount and GetInterest on the startup table *)

Lemma scaled_bounds (v r : Z) :
  0 <= v -> 2 ^ 62 <= r < 2 ^ 63 -> v <= v * r / 2 ^ 62 <= 2 * v.
Proof.
  intros Hv Hr. split.
  - apply Z.div_le_lower_bound; [lia|]. nia.
  - apply Z.div_le_upper_bound; [lia|]. nia.
Qed.

Lemma MAX_MONEY_eq : MAX_MONEY = 100000000000000000.
Proof. reflexivity. Qed.

Lemma GetInterest_guard (rateTable : list Z) (v hc hv : Z) :
  0 <= hc <= hv ->
  GetInterest rateTable v hc hv
  = standardInterest ← getRateForAmount rateTable
                         (Z.min MAXINTERESTPERIOD (to_int (hv - hc))) v;
    Some (to_int64 (v + standardInterest)).
Proof.
  intros H. unfold GetInterest.
  destruct (Z.ltb_spec hc 0); [lia|]. destruct (Z.ltb_spec hv 0); [lia|].
  destruct (Z.ltb_spec hv hc); [lia|]. reflexivity.
Qed.

Lemma GetInterest_earlier (rateTable : list Z) (v hc hv : Z) :
  hv < hc -> GetInterest rateTable v hc hv = Some v.
Proof.
  intros H. unfold GetInterest.
  destruct (hc <? 0); [reflexivity|]. destruct (hv <? 0); [reflexivity|].
  destruct (Z.ltb_spec hv hc) as [_|Hge]; [reflexivity | lia].
Qed.

(** On a table that holds the recurrence, as the startup table does. *)
Section StartupTable.

Variable rateTable : list Z.
Hypothesis Htable : is_rate_table rateTable.

Lemma getRateForAmount_startup (periods v : Z) :
  0 <= periods <= MAXINTERESTPERIOD ->
  0 <= v < 2 ^ 62 ->
  getRateForAmount rateTable periods v = Some (interest_of v (Z.to_nat periods))
  /\ 0 <= interest_of v (Z.to_nat periods) <= v.
Proof.
  intros Hp Hv. destruct Htable as [Hlen Hget].
  pose proof (rate_at_bounds (Z.to_nat periods) ltac:(lia)) as Hr.
  pose proof (scaled_bounds v (rate_at (Z.to_nat periods)) ltac:(lia) Hr) as Hs.
  assert (Hi : interest_of v (Z.to_nat periods)
               = v * rate_at (Z.to_nat periods) / 2 ^ 62 - v) by reflexivity.
  split; [|lia].
  unfold getRateForAmount.
  rewrite (array_read_Z rateTable periods) by lia.
  rewrite (array_read_Z rateTable 0) by lia. change (Z.to_nat 0) with 0%nat.
  rewrite (Hget (Z.to_nat periods)) by lia.
  rewrite (Hget 0%nat) by (rewrite MAXINTERESTPERIOD_eq; lia).
  cbn [mbind option_bind].
  unfold arith_uint256.of_uint64, arith_uint256.mul, arith_uint256.div,
    arith_uint256.GetLow64.
  rewrite (to_uint64_id v) by lia.
  rewrite (to_uint64_id (rate_at (Z.to_nat periods))) by lia.
  rewrite rate_at_0. rewrite (to_uint64_id (2 ^ 62)) by lia.
  change (2 ^ 62 =? 0) with false. cbn [mbind option_bind].
  assert (Hprod : 0 <= v * rate_at (Z.to_nat periods) < 2 ^ 256).
  { split; [nia|]. assert (v * rate_at (Z.to_nat periods) <= 2 ^ 62 * 2 ^ 63) by nia. lia. }
  rewrite (wrap_unsigned_id 256) by exact Hprod.
  rewrite (Z.mod_small (_ / _)) by lia.
  rewrite to_uint64_id by lia. rewrite to_int64_id by lia.
  rewrite Hi. reflexivity.
Qed.

Lemma GetInterest_startup (v hc hv : Z) :
  0 <= v <= MAX_MONEY -> 0 <= hc <= hv -> hv <= INT_MAX ->
  GetInterest rateTable v hc hv
  = Some (v + interest_of v (Z.to_nat (Z.min (hv - hc) MAXINTERESTPERIOD))).
Proof.
  intros Hv Hh Hmax. rewrite MAX_MONEY_eq in Hv. unfold INT_MAX in Hmax.
  rewrite GetInterest_guard by lia.
  rewrite to_int_id by lia. rewrite Z.min_comm.
  pose proof MAXINTERESTPERIOD_eq as HM.
  destruct (getRateForAmount_startup (Z.min (hv - hc) MAXINTERESTPERIOD) v)
    as [Hr Hb]; [lia | lia |].
  rewrite Hr. cbn [mbind option_bind]. rewrite to_int64_id by lia. reflexivity.
Qed.

End StartupTable.

(** ** initRateTable builds the table and its dump *)

Lemma lookup_static (n : nat) :
  Z.of_nat n <= MAXINTERESTPERIOD -> rateTable_static !! n = Some 0.
Proof.
  rewrite MAXINTERESTPERIOD_eq. intros Hn. unfold rateTable_static.
  apply lookup_replicate_2. lia.
Qed.

Lemma length_static : length rateTable_static = Z.to_nat (MAXINTERESTPERIOD + 1).
Proof. unfold rateTable_static. rewrite length_replicate. reflexivity. Qed.

Lemma initRateTable_spec (table0 : list Z) :
  length table0 = Z.to_nat (MAXINTERESTPERIOD + 1) ->
  exists rateTable,
    initRateTable table0
    = Some (rateTable, String.append (rate_rows (Z.to_nat MAXINTERESTPERIOD))
                                     (interest_rows (Z.to_nat MAXINTERESTPERIOD)))
    /\ is_rate_table rateTable.
Proof.
  intros Hlen0.
  pose proof MAXINTERESTPERIOD_eq as HM.
  unfold initRateTable.
  rewrite array_write_in by (rewrite Hlen0; lia). cbn [mbind option_bind].
  rewrite array_read_Z by lia.
  rewrite list_lookup_insert_eq by (rewrite Hlen0; lia). cbn [mbind option_bind].
  rewrite array_write_in by (rewrite length_insert, Hlen0; lia). cbn [mbind option_bind].
  set (t0 := <[Z.to_nat 0 := to_uint64 (Z.shiftl 1 62)]> (<[Z.to_nat 0 := 1]> table0)).
  assert (Hlen_t0 : length t0 = Z.to_nat (MAXINTERESTPERIOD + 1)).
  { unfold t0. rewrite !length_insert. exact Hlen0. }
  replace (to_int (MAXINTERESTPERIOD + 1)) with (MAXINTERESTPERIOD + 1)
    by (rewrite HM; reflexivity).
  match goal with
  | |- context [for_range 1 _ ?body ?s] =>
      destruct (for_range_inv first_loop_inv body 1 (MAXINTERESTPERIOD + 1) s)
        as ([t1 str1] & Hrun1 & Hlen1 & Hget1 & Hstr1)
  end.
  - lia.
  - split; [exact Hlen_t0|]. split; [|reflexivity].
    intros n Hn. assert (n = 0%nat) as -> by lia.
    unfold t0. change (Z.to_nat 0) with 0%nat. cbn [fst].
    rewrite list_lookup_insert_eq by (rewrite length_insert, Hlen0; lia). reflexivity.
  - intros j [t str] Hj (Hl & Hg & Hs). cbn [fst snd] in Hl, Hg, Hs.
    unfold fill_rate. rewrite (to_int_id (j - 1)) by lia.
    rewrite array_read_Z by lia. rewrite Hg by lia. cbn [mbind option_bind].
    rewrite array_write_in by (rewrite Hl; lia). cbn [mbind option_bind].
    rewrite array_read_Z by lia.
    rewrite list_lookup_insert_eq by (rewrite Hl; lia). cbn [mbind option_bind].
    assert (Hj' : Z.to_nat j = S (Z.to_nat (j - 1))) by lia.
    eexists. split; [reflexivity|].
    split; [|split]; cbn [fst snd].
    + rewrite length_insert. exact Hl.
    + intros n Hn. destruct (decide (n = Z.to_nat j)) as [->|Hne].
      * rewrite list_lookup_insert_eq by (rewrite Hl; lia).
        rewrite Hj'. reflexivity.
      * rewrite list_lookup_insert_ne by congruence. apply Hg. lia.
    + replace (j + 1 - 1) with j by lia. rewrite Hs, Hj'. cbn [rate_rows rate_at].
      rewrite <- Hj'. rewrite Z2Nat.id by lia. reflexivity.
  - rewrite Hrun1. cbn [mbind option_bind]. cbn [fst snd] in Hlen1, Hget1, Hstr1.
    assert (Ht1 : is_rate_table t1).
    { split; [exact Hlen1|]. intros n Hn. apply Hget1. lia. }
    match goal with
    | |- context [for_range 0 _ ?body ?s] =>
        destruct (for_range_inv second_loop_inv body 0 MAXINTERESTPERIOD s)
          as (str2 & Hrun2 & Hstr2)
    end.
    + lia.
    + unfold second_loop_inv. rewrite Hstr1.
      replace (MAXINTERESTPERIOD + 1 - 1) with MAXINTERESTPERIOD by lia.
      change (Z.to_nat 0) with 0%nat. cbn [interest_rows].
      generalize (rate_rows (Z.to_nat MAXINTERESTPERIOD)).
      intros s. induction s as [|c s IH]; cbn [String.append]; congruence.
    + intros j str Hj Hs. unfold second_loop_inv in Hs. unfold dump_rate.
      change (to_int64 (COIN * 100)) with (100 * COIN).
      destruct (getRateForAmount_startup t1 Ht1 j (100 * COIN) ltac:(lia)) as [Hr _].
      { unfold COIN. lia. }
      rewrite Hr. cbn [mbind option_bind]. eexists. split; [reflexivity|].
      unfold second_loop_inv. rewrite Hs, string_append_assoc.
      replace (Z.to_nat (j + 1)) with (S (Z.to_nat j)) by lia.
      cbn [interest_rows]. rewrite Z2Nat.id by lia. reflexivity.
    + rewrite Hrun2. cbn [mbind option_bind]. exists t1. unfold second_loop_inv in Hstr2.
      rewrite Hstr2. split; [reflexivity | exact Ht1].
Qed.

Lemma initRateTable_startup :
  exists rateTable,
    initRateTable rateTable_static
    = Some (rateTable, String.append (rate_rows (Z.to_nat MAXINTERESTPERIOD))
                                     (interest_rows (Z.to_nat MAXINTERESTPERIOD)))
    /\ is_rate_table rateTable.
Proof. apply initRateTable_spec. exact length_static. Qed.

Lemma at_startup_intro (P : list Z -> Prop) :
  (forall rateTable, is_rate_table rateTable -> P rateTable) -> at_startup P.
Proof.
  intros HP. destruct initRateTable_startup as (t & Hrun & Ht).
  exists t. eexists. split; [exact Hrun | apply HP; exact Ht].
Qed.

Lemma at_startup_elim (P : list Z -> Prop) :
  at_startup P -> exists rateTable, is_rate_table rateTable /\ P rateTable.
Proof.
  intros (t & dump & Hrun & HP). destruct initRateTable_startup as (t' & Hrun' & Ht').
  rewrite Hrun in Hrun'.
  apply (f_equal (fun o : option (list Z * string) =>
                    match o with Some (a, _) => a | None => [] end)) in Hrun'.
  change (t = t') in Hrun'. subst t'. exists t. split; assumption.
Qed.

(** ** The claims about the interest engine *)

(** C1: for a face value [v] in [0, MAX_MONEY] and heights
    [0 <= hc <= hv] (of type [int]), [GetInterest] on the startup table, and
    so [CTxOut::GetValueWithInterest], returns [v + ((v * R[p]) / R[0] - v)]
    with [p = min (hv - hc) MAXINTERESTPERIOD], the product and quotient being
    the exact integers (the 256-bit operations do not wrap); and from
    [hv >= hc + MAXINTERESTPERIOD] on the result is the one at
    [hc + MAXINTERESTPERIOD]. *)
Theorem GetInterest_formula (v hc hv : Z) :
  0 <= v <= MAX_MONEY -> 0 <= hc <= hv -> hv <= INT_MAX ->
  at_startup (fun R =>
    let p := Z.min (hv - hc) MAXINTERESTPERIOD in
    exists Rp R0,
      R !! Z.to_nat p = Some Rp /\ R !! 0%nat = Some R0 /\
      0 <= p <= MAXINTERESTPERIOD /\
      GetInterest R v hc hv = Some (v + (v * Rp / R0 - v)) /\
      (forall script, GetValueWithInterest R {| nValue := v; scriptPubKey := script |} hc hv
                      = Some (v + (v * Rp / R0 - v))) /\
      (hc + MAXINTERESTPERIOD <= hv ->
       GetInterest R v hc hv = GetInterest R v hc (hc + MAXINTERESTPERIOD))).
Proof.
  intros Hv Hh Hmax. apply at_startup_intro. intros R HR.
  pose proof MAXINTERESTPERIOD_eq as HM.
  cbv zeta. exists (rate_at (Z.to_nat (Z.min (hv - hc) MAXINTERESTPERIOD))), (rate_at 0).
  destruct HR as [Hlen Hget].
  split; [apply Hget; lia|]. split; [apply Hget; lia|]. split; [lia|].
  assert (HG : GetInterest R v hc hv
               = Some (v + (v * rate_at (Z.to_nat (Z.min (hv - hc) MAXINTERESTPERIOD))
                            / rate_at 0 - v))).
  { apply GetInterest_startup; try assumption. split; assumption. }
  split; [exact HG|]. split; [intros script; exact HG|].
  intros Hsat. rewrite HG.
  rewrite (GetInterest_startup R (conj Hlen Hget) v hc (hc + MAXINTERESTPERIOD));
    [ | assumption | lia | unfold INT_MAX in *; lia ].
  replace (Z.min (hc + MAXINTERESTPERIOD - hc) MAXINTERESTPERIOD)
    with (Z.min (hv - hc) MAXINTERESTPERIOD) by lia.
  reflexivity.
Qed.

Lemma GetInterest_formula_witness :
  at_startup (fun R =>
    let p := Z.min (500000 - 10) MAXINTERESTPERIOD in
    exists Rp R0,
      R !! Z.to_nat p = Some Rp /\ R !! 0%nat = Some R0 /\
      0 <= p <= MAXINTERESTPERIOD /\
      GetInterest R (100 * COIN) 10 500000 = Some (100 * COIN + (100 * COIN * Rp / R0 - 100 * COIN)) /\
      (forall script,
         GetValueWithInterest R {| nValue := 100 * COIN; scriptPubKey := script |} 10 500000
         = Some (100 * COIN + (100 * COIN * Rp / R0 - 100 * COIN))) /\
      (10 + MAXINTERESTPERIOD <= 500000 ->
       GetInterest R (100 * COIN) 10 500000
       = GetInterest R (100 * COIN) 10 (10 + MAXINTERESTPERIOD))).
Proof.
  apply (GetInterest_formula (100 * COIN) 10 500000);
    unfold MAX_MONEY, COIN, INT_MAX; lia.
Defined.

(** C6: when [hv < hc], or [hc < 0], or [hv < 0], [GetInterest] returns
    the value it was given, whatever the value and whatever the table. *)
Theorem GetInterest_defensive (rateTable : list Z) (v hc hv : Z) :
  hv < hc \/ hc < 0 \/ hv < 0 -> GetInterest rateTable v hc hv = Some v.
Proof.
  intros H. unfold GetInterest.
  destruct (Z.ltb_spec hc 0); [reflexivity|].
  destruct (Z.ltb_spec hv 0); [reflexivity|].
  destruct (Z.ltb_spec hv hc); [reflexivity|]. lia.
Qed.

Lemma GetInterest_defensive_witness :
  (3 < 7 \/ 7 < 0 \/ 3 < 0) /\ GetInterest [] (-5) 7 3 = Some (-5).
Proof.
  split; [left; lia|]. apply (GetInterest_defensive [] (-5) 7 3). left. lia.
Defined.

(** C7: for [v] in [0, MAX_MONEY] and heights [0 <= h0 <= h1], the interest
    [GetInterest(v, h0, h1) - v] is the interest
    [GetInterest(v, 0, h1 - h0) - v]: both calls return, and the same value. *)
Theorem GetInterest_translation (v h0 h1 : Z) :
  0 <= v <= MAX_MONEY -> 0 <= h0 <= h1 -> h1 <= INT_MAX ->
  at_startup (fun R =>
    exists a b,
      GetInterest R v h0 h1 = Some a /\ GetInterest R v 0 (h1 - h0) = Some b /\
      a - v = b - v).
Proof.
  intros Hv Hh Hmax. apply at_startup_intro. intros R HR.
  eexists. eexists.
  split; [apply GetInterest_startup; try assumption; split; assumption|].
  split; [apply GetInterest_startup; try assumption; lia|].
  replace (h1 - h0 - 0) with (h1 - h0) by lia. reflexivity.
Qed.

Lemma GetInterest_translation_witness :
  at_startup (fun R =>
    exists a b,
      GetInterest R COIN 1000 2108 = Some a /\ GetInterest R COIN 0 (2108 - 1000) = Some b /\
      a - COIN = b - COIN).
Proof.
  apply (GetInterest_translation COIN 1000 2108);
    unfold MAX_MONEY, COIN, INT_MAX; lia.
Defined.

Lemma rate_at_after_first n :
  (1 <= n)%nat -> Z.of_nat n <= MAXINTERESTPERIOD -> 2 ^ 62 + 2 ^ 40 <= rate_at n.
Proof.
  intros H1 Hn. rewrite rate_at_raw by exact Hn.
  pose proof (rate_raw_mono 1 n H1). pose proof (rate_raw_step 0).
  change (rate_raw 0) with (2 ^ 62) in *. lia.
Qed.

Lemma interest_of_0 v : interest_of v 0 = 0.
Proof.
  unfold interest_of. rewrite rate_at_0. rewrite Z.div_mul by lia. lia.
Qed.

Lemma interest_of_positive v n :
  2 ^ 22 <= v -> (1 <= n)%nat -> Z.of_nat n <= MAXINTERESTPERIOD -> 1 <= interest_of v n.
Proof.
  intros Hv H1 Hn. unfold interest_of. rewrite rate_at_0.
  pose proof (rate_at_after_first n H1 Hn) as Hr.
  assert (v + 1 <= v * rate_at n / 2 ^ 62); [|lia].
  apply Z.div_le_lower_bound; [lia|].
  assert (v * (2 ^ 62 + 2 ^ 40) <= v * rate_at n) by nia.
  assert (2 ^ 62 <= v * 2 ^ 40) by lia. lia.
Qed.

(** C2, as the code has it: the effective value of a coin (face value in
    [0, MAX_MONEY], heights of type [int]) is at least its face value; it is
    the face value whenever [h <= creationHeight]; and for a face value of at
    least 2^22 it is the face value only if [h <= creationHeight].  (Below
    2^22 the truncating division can leave no interest at a later height.) *)
Theorem effective_value_ge_face (c : Coin) (h : Z) :
  0 <= faceValue c <= MAX_MONEY ->
  0 <= creationHeight c <= INT_MAX -> 0 <= h <= INT_MAX ->
  at_startup (fun R =>
    exists e,
      GetInterest R (faceValue c) (creationHeight c) h = Some e /\
      faceValue c <= e /\
      (h <= creationHeight c -> e = faceValue c) /\
      (2 ^ 22 <= faceValue c -> e = faceValue c -> h <= creationHeight c)).
Proof.
  intros Hv Hc Hh. apply at_startup_intro. intros R HR.
  pose proof MAXINTERESTPERIOD_eq as HM.
  destruct (Z.lt_ge_cases h (creationHeight c)) as [Hlt|Hge].
  - exists (faceValue c). split; [apply GetInterest_earlier; lia|].
    split; [lia|]. split; [reflexivity|]. lia.
  - eexists. split; [apply GetInterest_startup; try assumption; lia|].
    set (p := Z.min (h - creationHeight c) MAXINTERESTPERIOD).
    assert (Hp : 0 <= p <= MAXINTERESTPERIOD) by (unfold p; lia).
    rewrite MAX_MONEY_eq in Hv.
    destruct (getRateForAmount_startup R HR p (faceValue c) Hp ltac:(lia)) as [_ Hb].
    split; [lia|]. split.
    + intros Hle. assert (p = 0) as -> by (unfold p; lia).
      change (Z.to_nat 0) with 0%nat. rewrite interest_of_0. lia.
    + intros Hbig He.
      destruct (Z.le_gt_cases h (creationHeight c)) as [|Hgt]; [assumption|].
      pose proof (interest_of_positive (faceValue c) (Z.to_nat p) Hbig) as Hpos.
      assert (1 <= p) by (unfold p; lia).
      specialize (Hpos ltac:(lia) ltac:(lia)). lia.
Qed.

Lemma effective_value_ge_face_witness :
  at_startup (fun R =>
    exists e,
      GetInterest R (faceValue sample_coin) (creationHeight sample_coin) 150 = Some e /\
      faceValue sample_coin <= e /\
      (150 <= creationHeight sample_coin -> e = faceValue sample_coin) /\
      (2 ^ 22 <= faceValue sample_coin -> e = faceValue sample_coin ->
       150 <= creationHeight sample_coin)).
Proof.
  apply (effective_value_ge_face sample_coin 150);
    unfold sample_coin, faceValue, MAX_MONEY, COIN, INT_MAX; cbn [nValue out creationHeight]; lia.
Defined.

(** C2 as stated fails: the coin of face value 1 created at height 0 is
    still worth 1 at height 1, where [h <= creationHeight] does not hold. *)
Lemma effective_value_equality_counterexample :
  ~ (forall (c : Coin) (h : Z),
       0 <= faceValue c <= MAX_MONEY ->
       0 <= creationHeight c <= INT_MAX -> 0 <= h <= INT_MAX ->
       at_startup (fun R =>
         exists e,
           GetInterest R (faceValue c) (creationHeight c) h = Some e /\
           faceValue c <= e /\ (e = faceValue c <-> h <= creationHeight c))).
Proof.
  intros Hclaim.
  specialize (Hclaim tiny_coin 1).
  destruct (at_startup_elim _ (Hclaim ltac:(vm_compute; split; discriminate)
                                      ltac:(vm_compute; split; discriminate)
                                      ltac:(vm_compute; split; discriminate)))
    as (R & HR & e & He & _ & Hiff).
  change (faceValue tiny_coin) with 1 in *. change (creationHeight tiny_coin) with 0 in *.
  rewrite (GetInterest_startup R HR 1 0 1) in He;
    [ | vm_compute; split; discriminate | lia | vm_compute; discriminate ].
  assert (E : 1 + interest_of 1 (Z.to_nat (Z.min (1 - 0) MAXINTERESTPERIOD)) = 1)
    by (vm_compute; reflexivity).
  rewrite E in He. injection He as <-.
  destruct Hiff as [Hto _]. specialize (Hto eq_refl). lia.
Qed.

(** C3: the table [initRateTable] builds has [R[0] = 1 << 62] and, for
    [1 <= i <= MAXINTERESTPERIOD], [R[i] = R[i-1] + (R[i-1] >> 22)], the
    unsigned 64-bit sum being the exact one; [ONEDAY = 1108] and
    [MAXINTERESTPERIOD = ONEDAY * 365 = 404420]. *)
Theorem rateTable_recurrence (i : Z) :
  1 <= i <= MAXINTERESTPERIOD ->
  ONEDAY = 1108 /\ MAXINTERESTPERIOD = ONEDAY * 365 /\ MAXINTERESTPERIOD = 404420 /\
  at_startup (fun R =>
    length R = Z.to_nat (MAXINTERESTPERIOD + 1) /\
    R !! 0%nat = Some (Z.shiftl 1 62) /\
    exists prev,
      R !! Z.to_nat (i - 1) = Some prev /\
      R !! Z.to_nat i = Some (to_uint64 (prev + Z.shiftr prev 22)) /\
      to_uint64 (prev + Z.shiftr prev 22) = prev + Z.shiftr prev 22).
Proof.
  intros Hi. split; [reflexivity|]. split; [reflexivity|]. split; [reflexivity|].
  apply at_startup_intro. intros R [Hlen Hget].
  pose proof MAXINTERESTPERIOD_eq as HM.
  split; [exact Hlen|]. split; [apply (Hget 0%nat); lia|].
  exists (rate_at (Z.to_nat (i - 1))).
  assert (Hs : Z.to_nat i = S (Z.to_nat (i - 1))) by lia.
  split; [apply Hget; lia|]. split.
  - rewrite Hget by lia. rewrite Hs. reflexivity.
  - destruct (rate_at_succ (Z.to_nat (i - 1)) ltac:(lia)) as [E _].
    rewrite <- E. apply to_uint64_id.
    pose proof (rate_at_bounds (S (Z.to_nat (i - 1))) ltac:(lia)). lia.
Qed.

Lemma rateTable_recurrence_witness :
  ONEDAY = 1108 /\ MAXINTERESTPERIOD = ONEDAY * 365 /\ MAXINTERESTPERIOD = 404420 /\
  at_startup (fun R =>
    length R = Z.to_nat (MAXINTERESTPERIOD + 1) /\
    R !! 0%nat = Some (Z.shiftl 1 62) /\
    exists prev,
      R !! Z.to_nat (1108 - 1) = Some prev /\
      R !! Z.to_nat 1108 = Some (to_uint64 (prev + Z.shiftr prev 22)) /\
      to_uint64 (prev + Z.shiftr prev 22) = prev + Z.shiftr prev 22).
Proof.
  apply (rateTable_recurrence 1108). rewrite MAXINTERESTPERIOD_eq. lia.
Defined.

(** C10: every entry of the startup table lies in [2^62, 2^63), the
    recurrence does not wrap and each entry exceeds the one before; hence
    for [v] in [0, MAX_MONEY] and [periods] in [0, MAXINTERESTPERIOD] the
    256-bit quotient [(v * R[periods]) / R[0]] is the exact one and below
    2^64, [GetLow64] leaves it unchanged, and [getRateForAmount] returns the
    quotient minus [v], a non-negative signed 64-bit amount. *)
Theorem rateTable_bounds (i v : Z) :
  0 <= i <= MAXINTERESTPERIOD -> 0 <= v <= MAX_MONEY ->
  at_startup (fun R =>
    exists r r0,
      R !! Z.to_nat i = Some r /\ R !! 0%nat = Some r0 /\
      2 ^ 62 <= r < 2 ^ 63 /\
      (1 <= i -> exists prev, R !! Z.to_nat (i - 1) = Some prev /\
                              r = prev + Z.shiftr prev 22 /\ prev < r) /\
      let product := arith_uint256.mul (arith_uint256.of_uint64 v) (arith_uint256.of_uint64 r) in
      exists result,
        arith_uint256.div product (arith_uint256.of_uint64 r0) = Some result /\
        result = v * r / r0 /\ result < 2 ^ 64 /\
        arith_uint256.GetLow64 result = result /\
        getRateForAmount R i v = Some (result - v) /\
        0 <= result - v < 2 ^ 63).
Proof.
  intros Hi Hv. apply at_startup_intro. intros R HR.
  pose proof MAXINTERESTPERIOD_eq as HM. rewrite MAX_MONEY_eq in Hv.
  pose proof (rate_at_bounds (Z.to_nat i) ltac:(lia)) as Hr.
  pose proof (scaled_bounds v (rate_at (Z.to_nat i)) ltac:(lia) Hr) as Hs.
  destruct (getRateForAmount_startup R HR i v Hi ltac:(lia)) as [Hrate Hb].
  destruct HR as [Hlen Hget].
  exists (rate_at (Z.to_nat i)), (rate_at 0).
  split; [apply Hget; lia|]. split; [apply Hget; lia|]. split; [exact Hr|]. split.
  - intros H1. exists (rate_at (Z.to_nat (i - 1))).
    split; [apply Hget; lia|].
    replace (Z.to_nat i) with (S (Z.to_nat (i - 1))) by lia.
    apply rate_at_succ. lia.
  - cbv zeta. exists (v * rate_at (Z.to_nat i) / rate_at 0).
    unfold interest_of in Hrate, Hb. rewrite rate_at_0 in *.
    unfold arith_uint256.of_uint64, arith_uint256.mul, arith_uint256.div,
      arith_uint256.GetLow64.
    rewrite (to_uint64_id v) by lia.
    rewrite (to_uint64_id (rate_at (Z.to_nat i))) by lia.
    rewrite (to_uint64_id (2 ^ 62)) by lia.
    assert (Hprod : 0 <= v * rate_at (Z.to_nat i) < 2 ^ 256).
    { split; [nia|]. assert (v * rate_at (Z.to_nat i) <= 2 ^ 62 * 2 ^ 63) by nia. lia. }
    rewrite (wrap_unsigned_id 256) by exact Hprod.
    change (2 ^ 62 =? 0) with false. cbv iota.
    split; [reflexivity|]. split; [reflexivity|]. split; [lia|].
    split; [apply Z.mod_small; lia|]. split; [exact Hrate|]. lia.
Qed.

Lemma rateTable_bounds_witness :
  at_startup (fun R =>
    exists r r0,
      R !! Z.to_nat 404420 = Some r /\ R !! 0%nat = Some r0 /\
      2 ^ 62 <= r < 2 ^ 63 /\
      (1 <= 404420 -> exists prev, R !! Z.to_nat (404420 - 1) = Some prev /\
                                   r = prev + Z.shiftr prev 22 /\ prev < r) /\
      let product :=
        arith_uint256.mul (arith_uint256.of_uint64 MAX_MONEY) (arith_uint256.of_uint64 r) in
      exists result,
        arith_uint256.div product (arith_uint256.of_uint64 r0) = Some result /\
        result = MAX_MONEY * r / r0 /\ result < 2 ^ 64 /\
        arith_uint256.GetLow64 result = result /\
        getRateForAmount R 404420 MAX_MONEY = Some (result - MAX_MONEY) /\
        0 <= result - MAX_MONEY < 2 ^ 63).
Proof.
  apply (rateTable_bounds 404420 MAX_MONEY);
    rewrite ?MAXINTERESTPERIOD_eq, ?MAX_MONEY_eq; lia.
Defined.

(** ** Work of a compact target *)

Ltac split_triple E Ha Hb Hc :=
  pose proof (f_equal (fun p : Z * bool * bool => fst (fst p)) E) as Ha;
  pose proof (f_equal (fun p : Z * bool * bool => snd (fst p)) E) as Hb;
  pose proof (f_equal (fun p : Z * bool * bool => snd p) E) as Hc;
  cbn beta in Ha, Hb, Hc; cbn [fst snd] in Ha, Hb, Hc; clear E.

Lemma SetCompact_range (nCompact : Z) :
  0 <= nCompact < 2 ^ 32 ->
  forall target fNegative fOverflow,
    arith_uint256.SetCompact nCompact = (target, fNegative, fOverflow) ->
    0 <= target /\ (fOverflow = false -> target <= 2 ^ 256 - 2).
Proof.
  intros Hn target fNegative fOverflow. unfold arith_uint256.SetCompact.
  set (nSize := Z.shiftr nCompact 24). set (nWord := Z.land nCompact 8388607).
  assert (HS : 0 <= nSize < 256).
  { unfold nSize. rewrite Z.shiftr_div_pow2 by lia. split.
    - apply Z.div_pos; lia.
    - apply Z.div_lt_upper_bound; lia. }
  assert (HW : 0 <= nWord < 2 ^ 23).
  { unfold nWord. change 8388607 with (Z.ones 23). rewrite Z.land_ones by lia.
    apply Z.mod_pos_bound. lia. }
  destruct (Z.leb_spec nSize 3) as [H3|H3].
  - intros E. split_triple E Ht Hneg Hovf. subst target.
    rewrite Z.shiftr_div_pow2 by lia.
    assert (0 <= nWord / 2 ^ (8 * (3 - nSize)) <= nWord).
    { split; [apply Z.div_pos; lia|]. apply Z.div_le_upper_bound; [lia|].
      assert (1 <= 2 ^ (8 * (3 - nSize))) by (apply (Z.pow_le_mono_r 2 0); lia). nia. }
    split; [lia|]. intros _. lia.
  - intros E. split_triple E Ht Hneg Hovf. subst target fOverflow.
    unfold wrap_unsigned. split; [apply Z.mod_pos_bound; lia|].
    intros Hov. rewrite Z.shiftl_mul_pow2 by lia.
    destruct (Z.eqb_spec nWord 0) as [H0|H0].
    { rewrite H0. rewrite Z.mul_0_l. rewrite Z.mod_0_l by lia. lia. }
    cbn [negb andb] in Hov.
    assert (Hle : nWord * 2 ^ (8 * (nSize - 3)) <= 2 ^ 256 - 2).
    { destruct (Z.ltb_spec 34 nSize) as [|H34]; [discriminate|].
      destruct (Z.ltb_spec 33 nSize) as [H33|H33].
      - destruct (Z.ltb_spec 255 nWord) as [|H255]; [discriminate|].
        assert (nSize = 34) as -> by lia. change (2 ^ (8 * (34 - 3))) with (2 ^ 248). lia.
      - destruct (Z.ltb_spec 32 nSize) as [H32|H32].
        + rewrite andb_false_r in Hov. cbn [orb] in Hov.
          destruct (Z.ltb_spec 65535 nWord) as [|H65]; [discriminate|].
          assert (nSize = 33) as -> by lia. change (2 ^ (8 * (33 - 3))) with (2 ^ 240). lia.
        + assert (2 ^ (8 * (nSize - 3)) <= 2 ^ 232) by (apply Z.pow_le_mono_r; lia).
          assert (0 < 2 ^ (8 * (nSize - 3))) by (apply Z.pow_pos_nonneg; lia).
          assert (nWord * 2 ^ (8 * (nSize - 3)) <= 2 ^ 23 * 2 ^ 232) by nia. lia. }
    assert (0 <= nWord * 2 ^ (8 * (nSize - 3))).
    { apply Z.mul_nonneg_nonneg; [lia|]. apply Z.pow_nonneg. lia. }
    rewrite Z.mod_small by lia. exact Hle.
Qed.

Lemma work_quotient (t : Z) :
  1 <= t <= 2 ^ 256 - 2 ->
  (2 ^ 256 - 1 - t) / (t + 1) + 1 = 2 ^ 256 / (t + 1) /\
  0 <= (2 ^ 256 - 1 - t) / (t + 1) + 1 < 2 ^ 256.
Proof.
  intros Ht.
  assert (E : 2 ^ 256 = (2 ^ 256 - 1 - t) + 1 * (t + 1)) by lia.
  assert (Hq : 2 ^ 256 / (t + 1) = (2 ^ 256 - 1 - t) / (t + 1) + 1).
  { rewrite E at 1. apply Z.div_add. lia. }
  split; [lia|]. rewrite <- Hq. split.
  - apply Z.div_pos; lia.
  - apply Z.div_lt_upper_bound; [lia|]. nia.
Qed.

(** C8: for a 32-bit compact value, with [target] and the two flags as
    [SetCompact] decodes them, [GetWorkForDifficultyBits] returns 0 when
    the target is flagged negative or overflowing or is zero, and otherwise
    [(~target) / (target + 1) + 1], none of the 256-bit operations wrapping
    or dividing by zero; that value is the floor of [2^256 / (target + 1)]. *)
Theorem GetWorkForDifficultyBits_formula (nBits target : Z) (fNegative fOverflow : bool) :
  0 <= nBits < 2 ^ 32 ->
  arith_uint256.SetCompact nBits = (target, fNegative, fOverflow) ->
  GetWorkForDifficultyBits nBits
  = Some (if fNegative || fOverflow || (target =? 0) then 0
          else arith_uint256.not target / (target + 1) + 1)
  /\ (fNegative || fOverflow || (target =? 0) = false ->
      arith_uint256.not target / (target + 1) + 1 = 2 ^ 256 / (target + 1)).
Proof.
  intros Hn E. destruct (SetCompact_range nBits Hn _ _ _ E) as [H0 Hov].
  unfold GetWorkForDifficultyBits. rewrite E.
  destruct (fNegative || fOverflow || (target =? 0)) eqn:Hflag.
  - split; [reflexivity | discriminate].
  - apply orb_false_elim in Hflag as [Hflag Hz]. apply orb_false_elim in Hflag as [_ Hf].
    apply Z.eqb_neq in Hz. specialize (Hov Hf).
    destruct (work_quotient target ltac:(lia)) as [Hq Hb].
    unfold arith_uint256.add, arith_uint256.div, arith_uint256.not.
    rewrite (wrap_unsigned_id 256 (target + 1)) by lia.
    destruct (Z.eqb_spec (target + 1) 0) as [|_]; [lia|].
    cbn [mbind option_bind].
    rewrite wrap_unsigned_id by lia.
    split; [reflexivity|]. intros _. exact Hq.
Qed.

Lemma GetWorkForDifficultyBits_formula_witness :
  GetWorkForDifficultyBits 486604799
  = Some (if false || false || (65535 * 2 ^ 208 =? 0) then 0
          else arith_uint256.not (65535 * 2 ^ 208) / (65535 * 2 ^ 208 + 1) + 1)
  /\ (false || false || (65535 * 2 ^ 208 =? 0) = false ->
      arith_uint256.not (65535 * 2 ^ 208) / (65535 * 2 ^ 208 + 1) + 1
      = 2 ^ 256 / (65535 * 2 ^ 208 + 1)).
Proof.
  apply (GetWorkForDifficultyBits_formula 486604799 (65535 * 2 ^ 208) false false);
    [lia | vm_compute; reflexivity].
Defined.

(** ** Header hashing *)

Lemma length_le_bytes (n : nat) (x : Z) : length (le_bytes n x) = n.
Proof. revert x. induction n as [|n IH]; intros x; cbn [le_bytes length]; [reflexivity|]. rewrite IH. reflexivity. Qed.















(** ** The pattern-search wrapper *)

Lemma round_threads_spec (fuel : nat) :
  forall k n,
    0 <= k <= 30 -> n <= 2 ^ 30 -> (k = 0 \/ 2 ^ (k - 1) < n) ->
    30 - k < Z.of_nat fuel ->
    exists k', k <= k' <= 30 /\ round_threads fuel (2 ^ k) n = Some (2 ^ k') /\
               n <= 2 ^ k' /\ (k' = 0 \/ 2 ^ (k' - 1) < n).
Proof.
  induction fuel as [|fuel IH]; intros k n Hk Hn Hprev Hfuel; [lia|].
  cbn [round_threads]. destruct (Z.ltb_spec (2 ^ k) n) as [Hlt|Hge].
  - assert (k < 30).
    { destruct (Z.lt_ge_cases k 30) as [|H30]; [assumption|].
      assert (k = 30) as -> by lia. lia. }
    assert (E : 2 ^ k * 2 = 2 ^ (k + 1)) by (rewrite Z.pow_add_r by lia; lia).
    assert (2 ^ (k + 1) <= 2 ^ 30) by (apply Z.pow_le_mono_r; lia).
    assert (0 < 2 ^ (k + 1)) by (apply Z.pow_pos_nonneg; lia).
    rewrite E. rewrite to_int_id by lia.
    destruct (IH (k + 1) n) as (k' & Hk' & Hr & Hle & Hmin); try lia.
    { right. replace (k + 1 - 1) with k by lia. exact Hlt. }
    exists k'. split; [lia|]. split; [exact Hr|]. split; assumption.
  - exists k. split; [lia|]. split; [reflexivity|]. split; [lia|exact Hprev].
Qed.

Lemma consider_candidate_first (hw : HashWrapper) (h : CBlockHeader)
    (results : list (Z * Z)) :
  forall st,
    (fst (fst st) = worst_hash \/
     (fst (fst st) = Hash (object_bytes h) /\
      UintToArith256 (Hash (object_bytes h)) < UintToArith256 worst_hash)) ->
    fst (fst (fold_left (consider_candidate h) results st))
    = match results with
      | [] => fst (fst st)
      | _ :: _ => if UintToArith256 (Hash (object_bytes h)) <? UintToArith256 worst_hash
                  then Hash (object_bytes h) else worst_hash
      end.
Proof.
  induction results as [|c results IH]; intros [[best loc] fin] Hst; [reflexivity|].
  cbn [fold_left fst] in *. rewrite IH.
  - unfold consider_candidate at 1.
    destruct Hst as [-> | [-> Hlt]].
    + destruct (Z.ltb_spec (UintToArith256 (Hash (object_bytes h)))
                           (UintToArith256 worst_hash)) as [Hlt|Hge];
        destruct results; reflexivity.
    + destruct (Z.ltb_spec (UintToArith256 (Hash (object_bytes h)))
                           (UintToArith256 (Hash (object_bytes h)))) as [|_]; [lia|].
      destruct (Z.ltb_spec (UintToArith256 (Hash (object_bytes h)))
                           (UintToArith256 worst_hash)) as [_|]; [|lia].
      destruct results; reflexivity.
  - unfold consider_candidate.
    destruct Hst as [-> | [-> Hlt]].
    + destruct (Z.ltb_spec (UintToArith256 (Hash (object_bytes h)))
                           (UintToArith256 worst_hash)) as [Hlt|Hge]; cbn [fst].
      * right. split; [reflexivity | exact Hlt].
      * left. reflexivity.
    + destruct (Z.ltb_spec (UintToArith256 (Hash (object_bytes h)))
                           (UintToArith256 (Hash (object_bytes h)))) as [|_]; [lia|].
      right. split; [reflexivity | exact Hlt].
Qed.

(** C9, as the code has it: with [nThreads = 0] the worst hash comes back
    and [collisions] is left alone; otherwise (for [nThreads <= 2^30]) the
    worker count becomes the least power of two that is at least
    [nThreads], [pattern_search] is run on the mid-hash, [collisions]
    becomes the number of candidates, and the hash returned is the worst
    hash when there is no candidate and else the header's mid-hash
    [Hash(BEGIN(nVersion), END(nNonce))], the same for every candidate,
    whenever it is below the worst hash. *)
Theorem FindBestPatternHash_behaviour (hw : HashWrapper) (ps : PatternSearch)
    (fuel : nat) (h : CBlockHeader) (collisions : Z) (scratchpad : list Z) (nThreads : Z) :
  (32 <= fuel)%nat -> nThreads <= 2 ^ 30 ->
  (nThreads = 0 ->
   FindBestPatternHash fuel h collisions scratchpad nThreads = Some (worst_hash, collisions))
  /\
  (nThreads <> 0 ->
   exists k,
     0 <= k <= 30 /\ nThreads <= 2 ^ k /\ (k = 0 \/ 2 ^ (k - 1) < nThreads) /\
     let results := pattern_search (GetMidHash h) scratchpad (2 ^ k) in
     FindBestPatternHash fuel h collisions scratchpad nThreads
     = Some (match results with
             | [] => worst_hash
             | _ :: _ => if UintToArith256 (GetMidHash h) <? UintToArith256 worst_hash
                         then GetMidHash h else worst_hash
             end,
             to_int (Z.of_nat (length results)))
     /\ (Z.of_nat (length results) < 2 ^ 31 ->
         to_int (Z.of_nat (length results)) = Z.of_nat (length results))).
Proof.
  intros Hfuel Hn. split.
  - intros ->. reflexivity.
  - intros Hnz. unfold FindBestPatternHash.
    destruct (Z.eqb_spec nThreads 0) as [|_]; [contradiction|].
    destruct (round_threads_spec fuel 0 nThreads) as (k & Hk & Hr & Hle & Hmin); try lia.
    change (2 ^ 0) with 1 in Hr. rewrite Hr. cbn [mbind option_bind].
    exists k. split; [lia|]. split; [exact Hle|]. split; [exact Hmin|].
    cbv zeta. split.
    + pose proof (consider_candidate_first hw h
                    (pattern_search (GetMidHash h) scratchpad (2 ^ k))
                    (worst_hash, 0, 0) (or_introl eq_refl)) as Hfold.
      destruct (fold_left (consider_candidate h)
                  (pattern_search (GetMidHash h) scratchpad (2 ^ k))
                  (worst_hash, 0, 0)) as [[best loc] fin].
      cbn [fst] in Hfold. rewrite Hfold. reflexivity.
    + intros Hlen. apply to_int_id. lia.
Qed.

Lemma FindBestPatternHash_behaviour_witness :
  (3 = 0 ->
   @FindBestPatternHash sample_hashes sample_search 32 null_header 7 [] 3
   = Some (worst_hash, 7))
  /\
  (3 <> 0 ->
   exists k,
     0 <= k <= 30 /\ 3 <= 2 ^ k /\ (k = 0 \/ 2 ^ (k - 1) < 3) /\
     let results :=
       @pattern_search sample_search (@GetMidHash sample_hashes null_header) [] (2 ^ k) in
     @FindBestPatternHash sample_hashes sample_search 32 null_header 7 [] 3
     = Some (match results with
             | [] => worst_hash
             | _ :: _ =>
                 if UintToArith256 (@GetMidHash sample_hashes null_header)
                    <? UintToArith256 worst_hash
                 then @GetMidHash sample_hashes null_header else worst_hash
             end,
             to_int (Z.of_nat (length results)))
     /\ (Z.of_nat (length results) < 2 ^ 31 ->
         to_int (Z.of_nat (length results)) = Z.of_nat (length results))).
Proof.
  apply (FindBestPatternHash_behaviour sample_hashes sample_search 32 null_header 7 [] 3);
    lia.
Defined.

(** C9 as stated fails: on the null header with one worker the search
    reports one candidate and the hash returned is the mid-hash, not the
    least outer hash over the candidates. *)
Lemma FindBestPatternHash_counterexample :
  let results :=
    @pattern_search sample_search (@GetMidHash sample_hashes null_header) [] 1 in
  @FindBestPatternHash sample_hashes sample_search 32 null_header 0 [] 1
  = Some (@GetMidHash sample_hashes null_header, 1)
  /\ @FindBestPatternHash sample_hashes sample_search 32 null_header 0 [] 1
     <> Some (@minimum_outer_hash sample_hashes null_header results,
              Z.of_nat (length results)).
Proof. vm_compute. split; [reflexivity | discriminate]. Qed.

(** ** MurmurHash3 is a fold over the bytes *)

Lemma list_ind4 (P : list Z -> Prop) :
  P [] -> (forall a, P [a]) -> (forall a b, P [a; b]) -> (forall a b c, P [a; b; c]) ->
  (forall a b c d l, P l -> P (a :: b :: c :: d :: l)) ->
  forall l, P l.
Proof.
  intros H0 H1 H2 H3 H4. fix IH 1.
  intros [|a [|b [|c [|d l]]]];
    [ exact H0 | exact (H1 a) | exact (H2 a b) | exact (H3 a b c)
    | exact (H4 a b c d l (IH l)) ].
Qed.

Lemma murmur_feed_body (data : list Z) :
  forall h size,
    fold_left murmur_feed data {| ms_h1 := h; ms_pending := []; ms_size := size |}
    = {| ms_h1 := fst (murmur_body h data); ms_pending := snd (murmur_body h data);
         ms_size := size + Z.of_nat (length data) |}.
Proof.
  induction data as [| a | a b | a b c | a b c d l IH] using list_ind4; intros h size.
  - cbn; f_equal; lia.
  - cbn; f_equal; lia.
  - cbn; f_equal; lia.
  - cbn; f_equal; lia.
  - cbn [fold_left murmur_feed ms_pending ms_h1 ms_size app murmur_body].
    rewrite IH. f_equal. cbn [length]. lia.
Qed.

Lemma MurmurHash3_fold (nHashSeed : Z) (data : list Z) :
  MurmurHash3 nHashSeed data = murmur_finish (fold_left murmur_feed data (murmur_start nHashSeed)).
Proof.
  unfold murmur_start. rewrite murmur_feed_body. unfold MurmurHash3, murmur_finish.
  destruct (murmur_body (to_uint32 nHashSeed) data) as [h1 tail].
  cbn [fst snd ms_h1 ms_pending ms_size]. rewrite Z.add_0_l. reflexivity.
Qed.

Lemma bytes_of_string_app (a b : string) :
  bytes_of_string (String.append a b) = bytes_of_string a ++ bytes_of_string b.
Proof.
  induction a as [|c a IH]; cbn [String.append bytes_of_string app]; [reflexivity|].
  rewrite IH. reflexivity.
Qed.

Lemma murmur_feed_string_app (s : murmur_state) (a b : string) :
  murmur_feed_string s (String.append a b)
  = murmur_feed_string (murmur_feed_string s a) b.
Proof.
  unfold murmur_feed_string. rewrite bytes_of_string_app. apply fold_left_app.
Qed.

(** ** The digest on machine integers is MurmurHash3 of the dump *)

(** *** Word operations *)

Lemma wB_eq : wB = 2 ^ 63.
Proof. reflexivity. Qed.

Lemma mod_wB_mod32 (x : Z) : (x mod wB) mod 2 ^ 32 = x mod 2 ^ 32.
Proof.
  apply Z.mod_mod_divide. exists (2 ^ 31). reflexivity.
Qed.

Lemma to_Z_mask32 (x : int) : to_Z (x land Fast.mask32)%uint63 = to_uint32 (to_Z x).
Proof.
  rewrite land_spec'. change (to_Z Fast.mask32) with (Z.ones 32).
  rewrite Z.land_ones by lia. reflexivity.
Qed.

Lemma to_uint32_mod_wB (x : Z) : to_uint32 (x mod wB) = to_uint32 x.
Proof. apply mod_wB_mod32. Qed.

Lemma to_uint32_lor (a b : Z) : to_uint32 (Z.lor a b) = Z.lor (to_uint32 a) (to_uint32 b).
Proof.
  unfold to_uint32, wrap_unsigned. rewrite <- !Z.land_ones by lia.
  apply Z.land_lor_distr_l.
Qed.

Lemma mul32_spec (a b : int) : to_Z (Fast.mul32 a b) = to_uint32 (to_Z a * to_Z b).
Proof.
  unfold Fast.mul32. rewrite to_Z_mask32, mul_spec. apply to_uint32_mod_wB.
Qed.

Lemma rotl_spec (x : int) (r : int) :
  0 <= to_Z r <= 32 ->
  to_uint32 (Z.lor (to_Z (x << r)%uint63) (to_Z (x >> (32 - r))%uint63))
  = ROTL32 (to_Z x) (to_Z r).
Proof.
  intros Hr. unfold ROTL32. rewrite lsl_spec, lsr_spec, sub_spec.
  change (to_Z 32) with 32. rewrite (Z.mod_small (32 - to_Z r)) by (rewrite wB_eq; lia).
  rewrite Z.shiftl_mul_pow2 by lia. rewrite Z.shiftr_div_pow2 by lia.
  rewrite !to_uint32_lor. rewrite to_uint32_mod_wB. reflexivity.
Qed.

Lemma rotl15_spec (x : int) : to_Z (Fast.rotl15 x) = ROTL32 (to_Z x) 15.
Proof.
  unfold Fast.rotl15. rewrite to_Z_mask32, lor_spec'.
  apply (rotl_spec x 15). change (to_Z 15) with 15. lia.
Qed.

Lemma rotl13_spec (x : int) : to_Z (Fast.rotl13 x) = ROTL32 (to_Z x) 13.
Proof.
  unfold Fast.rotl13. rewrite to_Z_mask32, lor_spec'.
  apply (rotl_spec x 13). change (to_Z 13) with 13. lia.
Qed.

Lemma k_mix_spec (k : int) : to_Z (Fast.k_mix k) = murmur_k (to_Z k).
Proof.
  unfold Fast.k_mix, murmur_k. rewrite mul32_spec, rotl15_spec, mul32_spec. reflexivity.
Qed.

Lemma block_spec (h k : int) : to_Z (Fast.block h k) = murmur_block (to_Z h) (to_Z k).
Proof.
  unfold Fast.block, murmur_block.
  rewrite to_Z_mask32, add_spec, mul_spec, rotl13_spec, lxor_spec', k_mix_spec.
  change (to_Z 5) with 5. change (to_Z 3864292196) with 3864292196.
  rewrite to_uint32_mod_wB. unfold to_uint32, wrap_unsigned.
  rewrite <- (Zplus_mod_idemp_l (_ mod wB)). rewrite mod_wB_mod32.
  rewrite Zplus_mod_idemp_l. reflexivity.
Qed.

Lemma lsl_byte (b : int) (k : int) :
  is_byte (to_Z b) -> 0 <= to_Z k <= 24 ->
  to_Z (b << k)%uint63 = Z.shiftl (to_Z b) (to_Z k).
Proof.
  intros Hb Hk. rewrite lsl_spec. rewrite Z.shiftl_mul_pow2 by lia.
  apply Z.mod_small. unfold is_byte in Hb. rewrite wB_eq.
  assert (0 < 2 ^ to_Z k <= 2 ^ 24).
  { split; [apply Z.pow_pos_nonneg; lia | apply Z.pow_le_mono_r; lia]. }
  nia.
Qed.

Lemma read_le32_spec (b0 b1 b2 b3 : int) :
  is_byte (to_Z b1) -> is_byte (to_Z b2) -> is_byte (to_Z b3) ->
  to_Z (Fast.read_le32 b0 b1 b2 b3) = ReadLE32 (to_Z b0) (to_Z b1) (to_Z b2) (to_Z b3).
Proof.
  intros H1 H2 H3. unfold Fast.read_le32, ReadLE32.
  rewrite !lor_spec'.
  rewrite (lsl_byte b1 8), (lsl_byte b2 16), (lsl_byte b3 24)
    by first [assumption | vm_compute; split; discriminate].
  reflexivity.
Qed.

Lemma size_succ (size : int) (n : Z) :
  to_Z size = n mod wB -> to_Z (size + 1)%uint63 = (n + 1) mod wB.
Proof.
  intros H. rewrite add_spec, H. change (to_Z 1) with 1.
  apply Zplus_mod_idemp_l.
Qed.

(** *** One byte, a list of bytes, the end *)

Lemma strict_eq {A : Type} (x : int) (k : int -> A) : Fast.strict x k = k x.
Proof.
  unfold Fast.strict. destruct (x =? 0)%uint63 eqn:E; [|reflexivity].
  apply eqb_correct in E. rewrite E. reflexivity.
Qed.

Lemma feed_all_refines (l : list int) :
  forall (h n : int) (p : Fast.pending) (m : murmur_state),
    refines {| Fast.h1 := h; Fast.size := n; Fast.rest := p |} m ->
    Forall is_byte (map to_Z l) ->
    refines (Fast.feed_all l h n p) (fold_left murmur_feed (map to_Z l) m).
Proof.
  induction l as [|b l IH]; intros h n p m Hr Hl.
  - cbn [Fast.feed_all map fold_left]. rewrite strict_eq. exact Hr.
  - cbn [map fold_left] in *. apply Forall_cons_1 in Hl as [Hbyte Hl].
    destruct Hr as (Hh & Hp & Hb & Hs).
    cbn [Fast.h1 Fast.size Fast.rest] in Hh, Hp, Hb, Hs.
    destruct p as [|b0|b0 b1|b0 b1 b2]; cbn [Fast.feed_all]; rewrite ?strict_eq;
      (apply IH; [|exact Hl]); unfold refines, murmur_feed; rewrite Hp;
      cbn [pending_of Fast.h1 Fast.size Fast.rest ms_h1 ms_pending ms_size app] in *.
    + split; [exact Hh|]. split; [reflexivity|].
      split; [constructor; [exact Hbyte | constructor] | apply size_succ; exact Hs].
    + apply Forall_cons_1 in Hb as [Hb0 _].
      split; [exact Hh|]. split; [reflexivity|].
      split; [constructor; [exact Hb0 | constructor; [exact Hbyte | constructor]]
             | apply size_succ; exact Hs].
    + apply Forall_cons_1 in Hb as [Hb0 Hb]. apply Forall_cons_1 in Hb as [Hb1 _].
      split; [exact Hh|]. split; [reflexivity|].
      split; [constructor; [exact Hb0 | constructor; [exact Hb1 | constructor;
                [exact Hbyte | constructor]]]
             | apply size_succ; exact Hs].
    + apply Forall_cons_1 in Hb as [Hb0 Hb]. apply Forall_cons_1 in Hb as [Hb1 Hb].
      apply Forall_cons_1 in Hb as [Hb2 _].
      split; [rewrite block_spec, read_le32_spec, Hh by assumption; reflexivity|].
      split; [reflexivity|]. split; [constructor | apply size_succ; exact Hs].
Qed.

Lemma feed_state_refines (l : list int) (f : Fast.state) (m : murmur_state) :
  refines f m -> Forall is_byte (map to_Z l) ->
  refines (Fast.feed_state l f) (fold_left murmur_feed (map to_Z l) m).
Proof.
  intros Hr Hl. unfold Fast.feed_state. apply feed_all_refines; [|exact Hl].
  destruct f. exact Hr.
Qed.

Lemma fmix_spec (h : int) : to_Z (Fast.fmix h) = fmix32 (to_Z h).
Proof.
  unfold Fast.fmix, fmix32. cbv zeta.
  repeat (rewrite ?lxor_spec', ?lsr_spec, ?mul32_spec).
  change (to_Z 16) with 16. change (to_Z 13) with 13.
  change (to_Z 2246822507) with 2246822507. change (to_Z 3266489909) with 3266489909.
  rewrite !Z.shiftr_div_pow2 by lia. reflexivity.
Qed.

Lemma finish_refines (f : Fast.state) (m : murmur_state) :
  refines f m -> to_Z (Fast.finish f) = murmur_finish m.
Proof.
  intros (Hh & Hp & Hb & Hs).
  assert (Htail : to_Z (Fast.tail f) = murmur_tail (ms_h1 m) (ms_pending m)).
  { rewrite Hp, Hh. unfold Fast.tail.
    destruct (Fast.rest f) as [|b0|b0 b1|b0 b1 b2]; cbn [pending_of murmur_tail] in *.
    - reflexivity.
    - rewrite lxor_spec', k_mix_spec. reflexivity.
    - apply Forall_cons_1 in Hb as [Hb0 Hb]. apply Forall_cons_1 in Hb as [Hb1 _].
      rewrite lxor_spec', k_mix_spec, lxor_spec'.
      rewrite (lsl_byte _ 8) by first [assumption | vm_compute; split; discriminate].
      reflexivity.
    - apply Forall_cons_1 in Hb as [Hb0 Hb]. apply Forall_cons_1 in Hb as [Hb1 Hb].
      apply Forall_cons_1 in Hb as [Hb2 _].
      rewrite lxor_spec', k_mix_spec, !lxor_spec'.
      rewrite (lsl_byte _ 8), (lsl_byte _ 16)
        by first [assumption | vm_compute; split; discriminate].
      reflexivity. }
  unfold Fast.finish, murmur_finish.
  rewrite fmix_spec, lxor_spec', to_Z_mask32, Htail, Hs, to_uint32_mod_wB. reflexivity.
Qed.

Lemma start_refines : refines (Fast.start 1989) (murmur_start 1989).
Proof.
  unfold refines, Fast.start, murmur_start.
  cbn [Fast.h1 Fast.size Fast.rest ms_h1 ms_pending ms_size pending_of].
  split; [rewrite to_Z_mask32; reflexivity|]. split; [reflexivity|].
  split; [constructor | reflexivity].
Qed.

Lemma rows1_step (n : nat) (i r : int) (s : Fast.state) :
  Fast.rows1 (S n) i r s
  = Fast.rows1 n (i + 1)%uint63 (Fast.next_rate r)
      (Fast.feed_state (Fast.row1 i (Fast.next_rate r)) s).
Proof.
  cbn [Fast.rows1]. cbv zeta. unfold Fast.feed_state. destruct s as [h k p].
  cbn [Fast.h1 Fast.size Fast.rest].
  destruct (Fast.feed_all (Fast.row1 i (Fast.next_rate r)) h k p). reflexivity.
Qed.

Lemma rows2_step (n : nat) (i r : int) (s : Fast.state) :
  Fast.rows2 (S n) i r s
  = Fast.rows2 n (i + 1)%uint63 (Fast.next_rate r)
      (Fast.feed_state (Fast.row2 i (Fast.interest100 r)) s).
Proof.
  cbn [Fast.rows2]. unfold Fast.feed_state. destruct s as [h k p].
  cbn [Fast.h1 Fast.size Fast.rest].
  destruct (Fast.feed_all (Fast.row2 i (Fast.interest100 r)) h k p). reflexivity.
Qed.

(** *** The rows *)

Lemma digit_char_code (d : Z) :
  0 <= d < 16 ->
  Z.of_N (N_of_ascii (digit_char d)) = if d <? 10 then d + 48 else d + 87.
Proof.
  intros Hd.
  assert (d = 0 \/ d = 1 \/ d = 2 \/ d = 3 \/ d = 4 \/ d = 5 \/ d = 6 \/ d = 7 \/
          d = 8 \/ d = 9 \/ d = 10 \/ d = 11 \/ d = 12 \/ d = 13 \/ d = 14 \/ d = 15)
    as Hcases by lia.
  repeat (destruct Hcases as [-> | Hcases]; [reflexivity|]). subst d. reflexivity.
Qed.

Lemma digits_acc (base : Z) (fuel : nat) :
  forall z acc,
    digits base fuel z acc = String.append (digits base fuel z EmptyString) acc.
Proof.
  induction fuel as [|fuel IH]; intros z acc; [reflexivity|].
  cbn [digits]. destruct (z <? base).
  - reflexivity.
  - rewrite IH. rewrite (IH (z / base) (String _ EmptyString)).
    rewrite string_append_assoc. reflexivity.
Qed.

Lemma bytes_of_string_range (s : string) : Forall is_byte (bytes_of_string s).
Proof.
  induction s as [|c s IH]; cbn [bytes_of_string]; constructor; [|exact IH].
  pose proof (N_ascii_bounded c). unfold is_byte. lia.
Qed.

Lemma fast_digits_spec (base : int) (fuel : nat) :
  to_Z base = 10 \/ to_Z base = 16 ->
  forall (z : int) (facc : list int) (acc : string),
    map to_Z facc = bytes_of_string acc ->
    map to_Z (Fast.digits base fuel z facc)
    = bytes_of_string (digits (to_Z base) fuel (to_Z z) acc).
Proof.
  intros Hbase. induction fuel as [|fuel IH]; intros z facc acc Hacc; [exact Hacc|].
  cbn [Fast.digits digits]. cbv zeta.
  pose proof (to_Z_bounded z) as Hz.
  assert (Hd : 0 <= to_Z z mod to_Z base < 16).
  { pose proof (Z.mod_pos_bound (to_Z z) (to_Z base)). lia. }
  assert (Hacc' :
    map to_Z ((if (z mod base <? 10)%uint63 then (z mod base + 48)%uint63
               else (z mod base + 87)%uint63) :: facc)
    = bytes_of_string (String (digit_char (to_Z z mod to_Z base)) acc)).
  { cbn [map bytes_of_string]. rewrite Hacc. f_equal.
    rewrite digit_char_code by exact Hd. rewrite <- mod_spec.
    destruct (ltbP (z mod base)%uint63 10) as [Hlt|Hge];
      change (to_Z 10) with 10 in *.
    - destruct (Z.ltb_spec (to_Z (z mod base)%uint63) 10) as [_|]; [|lia].
      rewrite add_spec. change (to_Z 48) with 48. apply Z.mod_small.
      rewrite wB_eq. rewrite mod_spec in *. lia.
    - destruct (Z.ltb_spec (to_Z (z mod base)%uint63) 10) as [|_]; [lia|].
      rewrite add_spec. change (to_Z 87) with 87. apply Z.mod_small.
      rewrite wB_eq. rewrite mod_spec in *. lia. }
  destruct (ltbP z base) as [Hlt|Hge].
  - destruct (Z.ltb_spec (to_Z z) (to_Z base)) as [_|]; [|lia]. exact Hacc'.
  - destruct (Z.ltb_spec (to_Z z) (to_Z base)) as [|_]; [lia|].
    rewrite <- div_spec. apply IH. exact Hacc'.
Qed.

Lemma fmt_d_nonneg (z : Z) : 0 <= z -> fmt_d z = digits 10 20 z EmptyString.
Proof.
  intros Hz. unfold fmt_d. destruct (Z.ltb_spec z 0) as [|_]; [lia|reflexivity].
Qed.

Lemma row1_spec (i r : int) :
  map to_Z (Fast.row1 i r) = bytes_of_string (strprintf_d_x (to_Z i) (to_Z r)).
Proof.
  unfold strprintf_d_x, fmt_x, Fast.row1.
  rewrite fmt_d_nonneg by apply to_Z_bounded.
  change (String.append " " ?s) with (String " " s).
  rewrite <- (digits_acc 16 20 (to_Z r) newline).
  rewrite <- (digits_acc 10 20 (to_Z i)).
  apply (fast_digits_spec 10 20 (or_introl eq_refl)).
  change (map to_Z (32%uint63 :: ?l)) with (32 :: map to_Z l).
  change (bytes_of_string (String " " ?s)) with (32 :: bytes_of_string s).
  f_equal. apply (fast_digits_spec 16 20 (or_intror eq_refl)). reflexivity.
Qed.

Lemma row2_spec (i a : int) :
  map to_Z (Fast.row2 i a) = bytes_of_string (strprintf_rate (to_Z i) (to_Z a)).
Proof.
  unfold strprintf_rate, Fast.row2.
  rewrite !fmt_d_nonneg by apply to_Z_bounded.
  change (String.append " " ?s) with (String " " s).
  rewrite <- (digits_acc 10 20 (to_Z a) newline).
  rewrite <- (digits_acc 10 20 (to_Z i)).
  change (String.append "rate: " ?s)
    with (String "r" (String "a" (String "t" (String "e" (String ":" (String " " s)))))).
  cbn [map bytes_of_string]. do 6 (apply (f_equal2 cons); [reflexivity|]).
  apply (fast_digits_spec 10 20 (or_introl eq_refl)).
  change (map to_Z (32%uint63 :: ?l)) with (32 :: map to_Z l).
  change (bytes_of_string (String " " ?s)) with (32 :: bytes_of_string s).
  f_equal. apply (fast_digits_spec 10 20 (or_introl eq_refl)). reflexivity.
Qed.

Lemma next_rate_spec (r : int) (m : nat) :
  to_Z r = rate_at m -> Z.of_nat (S m) <= MAXINTERESTPERIOD ->
  to_Z (Fast.next_rate r) = rate_at (S m).
Proof.
  intros Hr Hm. unfold Fast.next_rate. rewrite add_spec, lsr_spec, Hr.
  change (to_Z 22) with 22.
  destruct (rate_at_succ m Hm) as [E _]. rewrite Z.shiftr_div_pow2 in E by lia.
  rewrite <- E. apply Z.mod_small. rewrite wB_eq.
  pose proof (rate_at_bounds (S m) Hm). lia.
Qed.

Lemma interest100_spec (r : int) (m : nat) :
  to_Z r = rate_at m -> Z.of_nat m <= MAXINTERESTPERIOD ->
  to_Z (Fast.interest100 r) = interest_of (100 * COIN) m.
Proof.
  intros Hr Hm. unfold Fast.interest100, interest_of.
  rewrite rate_at_0. change (100 * COIN) with 10000000000.
  pose proof (mulc_spec 10000000000 r) as Hmul.
  destruct (mulc 10000000000 r) as [hi lo]. cbn [fst snd] in Hmul.
  change (to_Z 10000000000) with 10000000000 in Hmul. rewrite Hr in Hmul.
  pose proof (rate_at_bounds m Hm) as Hb.
  pose proof (scaled_bounds 10000000000 (rate_at m) ltac:(lia) Hb) as Hs.
  pose proof (to_Z_bounded hi) as Hhi. pose proof (to_Z_bounded lo) as Hlo.
  rewrite wB_eq in *.
  assert (Hq : 10000000000 * rate_at m / 2 ^ 62 = to_Z hi * 2 + to_Z lo / 2 ^ 62).
  { rewrite Hmul. replace (to_Z hi * 2 ^ 63) with (to_Z hi * 2 * 2 ^ 62) by lia.
    apply Z.div_add_l. lia. }
  assert (0 <= to_Z lo / 2 ^ 62) by (apply Z.div_pos; lia).
  rewrite sub_spec, add_spec, lsl_spec, lsr_spec.
  change (to_Z 1) with 1. change (to_Z 62) with 62.
  change (to_Z 10000000000) with 10000000000. change (2 ^ 1) with 2.
  rewrite wB_eq.
  rewrite (Z.mod_small (to_Z hi * 2)) by lia.
  rewrite (Z.mod_small (to_Z hi * 2 + _)) by lia.
  rewrite <- Hq. apply Z.mod_small. lia.
Qed.

(** *** The two loops *)

Lemma rows1_refines (n : nat) :
  forall (m : nat) (i r : int) (f : Fast.state) (s0 : murmur_state),
    Z.of_nat (m + n) <= MAXINTERESTPERIOD ->
    to_Z i = Z.of_nat (S m) -> to_Z r = rate_at m ->
    refines f (murmur_feed_string s0 (rate_rows m)) ->
    refines (Fast.rows1 n i r f) (murmur_feed_string s0 (rate_rows (m + n))).
Proof.
  pose proof MAXINTERESTPERIOD_eq as HM.
  induction n as [|n IH]; intros m i r f s0 Hm Hi Hr Hf.
  - rewrite Nat.add_0_r. exact Hf.
  - rewrite rows1_step. replace (m + S n)%nat with (S m + n)%nat by lia.
    pose proof (next_rate_spec r m Hr ltac:(lia)) as Hr'.
    apply IH.
    + lia.
    + rewrite add_spec, Hi. change (to_Z 1) with 1.
      rewrite Z.mod_small by (rewrite wB_eq; lia). lia.
    + exact Hr'.
    + cbn [rate_rows]. rewrite murmur_feed_string_app.
      unfold murmur_feed_string at 1. rewrite <- Hi, <- Hr', <- row1_spec.
      apply feed_state_refines; [exact Hf|].
      rewrite row1_spec. apply bytes_of_string_range.
Qed.

Lemma rows2_refines (n : nat) :
  forall (m : nat) (i r : int) (f : Fast.state) (s0 : murmur_state),
    Z.of_nat (m + n) <= MAXINTERESTPERIOD ->
    to_Z i = Z.of_nat m -> to_Z r = rate_at m ->
    refines f (murmur_feed_string s0 (interest_rows m)) ->
    refines (Fast.rows2 n i r f) (murmur_feed_string s0 (interest_rows (m + n))).
Proof.
  pose proof MAXINTERESTPERIOD_eq as HM.
  induction n as [|n IH]; intros m i r f s0 Hm Hi Hr Hf.
  - rewrite Nat.add_0_r. exact Hf.
  - rewrite rows2_step. replace (m + S n)%nat with (S m + n)%nat by lia.
    pose proof (interest100_spec r m Hr ltac:(lia)) as Ha.
    apply IH.
    + lia.
    + rewrite add_spec, Hi. change (to_Z 1) with 1.
      rewrite Z.mod_small by (rewrite wB_eq; lia). lia.
    + apply next_rate_spec; [exact Hr | lia].
    + cbn [interest_rows]. rewrite murmur_feed_string_app.
      unfold murmur_feed_string at 1. rewrite <- Hi, <- Ha, <- row2_spec.
      apply feed_state_refines; [exact Hf|].
      rewrite row2_spec. apply bytes_of_string_range.
Qed.

(** *** The whole dump *)

Lemma string_append_empty_l (s : string) : String.append EmptyString s = s.
Proof. reflexivity. Qed.

Lemma MurmurHash3_string (nHashSeed : Z) (s : string) :
  MurmurHash3 nHashSeed (bytes_of_string s)
  = murmur_finish (murmur_feed_string (murmur_start nHashSeed) s).
Proof. apply MurmurHash3_fold. Qed.

Lemma hash_rows_refines (n : nat) (f : Fast.state) (front : string) :
  Z.of_nat n <= MAXINTERESTPERIOD ->
  refines f (murmur_feed_string (murmur_start 1989) front) ->
  to_Z (Fast.hash_rows n f)
  = MurmurHash3 1989
      (bytes_of_string (String.append front (String.append (rate_rows n) (interest_rows n)))).
Proof.
  intros Hn Hf.
  rewrite MurmurHash3_string, !murmur_feed_string_app.
  unfold Fast.hash_rows. apply finish_refines.
  pose proof (rows2_refines n 0 0%uint63 4611686018427387904%uint63) as H2.
  rewrite Nat.add_0_l in H2. apply H2; [exact Hn | reflexivity | reflexivity |].
  cbn [interest_rows]. unfold murmur_feed_string at 1. cbn [bytes_of_string fold_left].
  pose proof (rows1_refines n 0 1%uint63 4611686018427387904%uint63) as H1.
  rewrite Nat.add_0_l in H1. apply H1; [exact Hn | reflexivity | reflexivity |].
  cbn [rate_rows]. unfold murmur_feed_string at 1. cbn [bytes_of_string fold_left].
  exact Hf.
Qed.

Lemma dump_hash_refines :
  to_Z (Fast.dump_hash (Z.to_nat MAXINTERESTPERIOD))
  = MurmurHash3 1989
      (bytes_of_string (String.append (rate_rows (Z.to_nat MAXINTERESTPERIOD))
                                      (interest_rows (Z.to_nat MAXINTERESTPERIOD)))).
Proof.
  unfold Fast.dump_hash.
  pose proof (hash_rows_refines (Z.to_nat MAXINTERESTPERIOD) (Fast.start 1989) EmptyString)
    as H.
  rewrite string_append_empty_l in H. apply H.
  - rewrite MAXINTERESTPERIOD_eq. lia.
  - exact start_refines.
Qed.

Lemma dump_hash_per_index_refines :
  to_Z (Fast.dump_hash_per_index (Z.to_nat MAXINTERESTPERIOD))
  = MurmurHash3 1989 (bytes_of_string (dump_per_table_index (Z.to_nat MAXINTERESTPERIOD))).
Proof.
  unfold Fast.dump_hash_per_index, dump_per_table_index.
  apply hash_rows_refines; [rewrite MAXINTERESTPERIOD_eq; lia|].
  unfold murmur_feed_string.
  change (strprintf_d_x 0 (rate_at 0))
    with (strprintf_d_x (to_Z 0) (to_Z 4611686018427387904)).
  rewrite <- (row1_spec 0%uint63 4611686018427387904%uint63).
  apply feed_state_refines; [exact start_refines|].
  rewrite row1_spec. apply bytes_of_string_range.
Qed.

Lemma dump_hash_value : to_Z (Fast.dump_hash (Z.to_nat MAXINTERESTPERIOD)) = 3541959715.
Proof. vm_compute. reflexivity. Qed.

Lemma dump_hash_per_index_value :
  to_Z (Fast.dump_hash_per_index (Z.to_nat MAXINTERESTPERIOD)) = 4081363928.
Proof. vm_compute. reflexivity. Qed.

(** ** The rate-data check *)

(** C4, as the code has it: the dump that [initRateTable] returns is the
    row [strprintf("%d %x\n", i, R[i])] for each [i] from 1 to
    MAXINTERESTPERIOD (index 0 has no row), followed by the row
    [strprintf("rate: %d %d\n", i, getRateForAmount(i, 100 * COIN))] for each
    [i] from 0 to MAXINTERESTPERIOD - 1; its MurmurHash3 with seed 1989, read
    as a signed 32-bit integer, is -753007581, so the assertion of AppInit2
    passes; with any other digest the assertion aborts. *)
Theorem rate_dump_digest :
  exists rateTable dump,
    initRateTable rateTable_static = Some (rateTable, dump) /\
    is_rate_table rateTable /\
    dump = String.append (rate_rows (Z.to_nat MAXINTERESTPERIOD))
                         (interest_rows (Z.to_nat MAXINTERESTPERIOD)) /\
    (forall i, 0 <= i < MAXINTERESTPERIOD ->
               getRateForAmount rateTable i (100 * COIN)
               = Some (interest_of (100 * COIN) (Z.to_nat i))) /\
    to_int (MurmurHash3 1989 (bytes_of_string dump)) = -753007581 /\
    AppInit2_rate_check rateTable_static = Some (Started rateTable) /\
    (forall rateDataHash t,
       rateDataHash <> -753007581 -> rate_data_assert rateDataHash t = Aborted).
Proof.
  destruct initRateTable_startup as (t & Hrun & Ht).
  assert (Hhash :
    to_int (MurmurHash3 1989
              (bytes_of_string
                 (String.append (rate_rows (Z.to_nat MAXINTERESTPERIOD))
                                (interest_rows (Z.to_nat MAXINTERESTPERIOD)))))
    = -753007581).
  { rewrite <- dump_hash_refines, dump_hash_value. reflexivity. }
  exists t. eexists. split; [exact Hrun|]. split; [exact Ht|]. split; [reflexivity|].
  split.
  { intros i Hi. apply getRateForAmount_startup; [exact Ht | lia | unfold COIN; lia]. }
  split; [exact Hhash|]. split.
  - unfold AppInit2_rate_check. rewrite Hrun. cbn [mbind option_bind].
    rewrite Hhash. reflexivity.
  - intros h t' Hne. unfold rate_data_assert.
    destruct (Z.eqb_spec h (-753007581)) as [|_]; [contradiction | reflexivity].
Qed.

Lemma rate_rows_head (n : nat) : exists rest, rate_rows (S n) = String "1" rest.
Proof.
  induction n as [|n [rest IH]].
  - eexists. vm_compute. reflexivity.
  - change (rate_rows (S (S n)))
      with (String.append (rate_rows (S n))
              (strprintf_d_x (Z.of_nat (S (S n))) (rate_at (S (S n))))).
    rewrite IH. eexists. reflexivity.
Qed.

(** C4 as stated fails: the dump has no row for table index 0.  It starts
    with the row of index 1, so it is not the dump with one row per table
    index; and that dump has another digest, with which AppInit2 would
    abort. *)
Lemma rate_dump_counterexample :
  (exists rateTable dump,
     initRateTable rateTable_static = Some (rateTable, dump) /\
     dump <> dump_per_table_index (Z.to_nat MAXINTERESTPERIOD)) /\
  to_int (MurmurHash3 1989
            (bytes_of_string (dump_per_table_index (Z.to_nat MAXINTERESTPERIOD))))
  = -213603368 /\
  (forall t, rate_data_assert (-213603368) t = Aborted).
Proof.
  split.
  - destruct initRateTable_startup as (t & Hrun & _).
    exists t. eexists. split; [exact Hrun|].
    assert (HN : Z.to_nat MAXINTERESTPERIOD = S (Z.to_nat (MAXINTERESTPERIOD - 1)))
      by (rewrite MAXINTERESTPERIOD_eq; lia).
    rewrite HN. destruct (rate_rows_head (Z.to_nat (MAXINTERESTPERIOD - 1))) as [rest Hrest].
    rewrite Hrest. unfold dump_per_table_index.
    change (strprintf_d_x 0 (rate_at 0))
      with (String "0" (String.append " 4000000000000000" newline)).
    cbn [String.append]. intros Heq.
    apply (f_equal (fun s => match s with String c _ => c | EmptyString => "x"%char end)) in Heq.
    cbv beta iota in Heq. discriminate Heq.
  - split; [|intros t; reflexivity].
    rewrite <- dump_hash_per_index_refines, dump_hash_per_index_value. reflexivity.
Qed.

(** ** Further properties of the interest engine *)

Lemma rate_at_mono (n m : nat) :
  (n <= m)%nat -> Z.of_nat m <= MAXINTERESTPERIOD -> rate_at n <= rate_at m.
Proof.
  intros Hnm Hm. rewrite !rate_at_raw by lia. apply rate_raw_mono. exact Hnm.
Qed.

Lemma elapsed_bound (hc hv : Z) : Z.of_nat (elapsed hc hv) <= MAXINTERESTPERIOD.
Proof.
  unfold elapsed. pose proof MAXINTERESTPERIOD_eq as HM.
  destruct ((hc <? 0) || (hv <? 0) || (hv <? hc)) eqn:E.
  - rewrite HM. lia.
  - apply orb_false_elim in E as [E _]. apply orb_false_elim in E as [_ E].
    lia.
Qed.

Lemma elapsed_mono (hc h1 h2 : Z) : h1 <= h2 -> (elapsed hc h1 <= elapsed hc h2)%nat.
Proof.
  intros Hle. unfold elapsed. pose proof MAXINTERESTPERIOD_eq as HM.
  destruct (Z.ltb_spec hc 0) as [|Hc]; cbn [orb]; [lia|].
  destruct (Z.ltb_spec h1 0) as [|H1]; cbn [orb]; [lia|].
  destruct (Z.ltb_spec h2 0) as [|H2]; cbn [orb]; [lia|].
  destruct (Z.ltb_spec h1 hc) as [|H1c]; [lia|].
  destruct (Z.ltb_spec h2 hc) as [|H2c]; lia.
Qed.

Lemma elapsed_saturated (hc hv : Z) :
  0 <= hc -> hc + MAXINTERESTPERIOD <= hv -> elapsed hc hv = Z.to_nat MAXINTERESTPERIOD.
Proof.
  intros Hc Hv. unfold elapsed. pose proof MAXINTERESTPERIOD_eq as HM.
  destruct (Z.ltb_spec hc 0) as [|_]; [lia|].
  destruct (Z.ltb_spec hv 0) as [|_]; [lia|].
  destruct (Z.ltb_spec hv hc) as [|_]; [lia|]. cbn [orb].
  rewrite Z.min_r by lia. reflexivity.
Qed.

(** [GetInterest] on a table that holds the recurrence, the guard
    included. *)
Lemma GetInterest_elapsed (R : list Z) (v hc hv : Z) :
  is_rate_table R ->
  0 <= v <= MAX_MONEY -> hc <= INT_MAX -> hv <= INT_MAX ->
  GetInterest R v hc hv = Some (v + interest_of v (elapsed hc hv)).
Proof.
  intros HR Hv Hc Hh. unfold elapsed.
  destruct ((hc <? 0) || (hv <? 0) || (hv <? hc)) eqn:E.
  - unfold GetInterest. rewrite E. rewrite interest_of_0. f_equal. lia.
  - apply orb_false_elim in E as [E E3]. apply orb_false_elim in E as [E1 E2].
    apply Z.ltb_ge in E1, E2, E3.
    apply GetInterest_startup; [exact HR | exact Hv | lia | exact Hh].
Qed.

Lemma interest_of_bounds (v : Z) (n : nat) :
  0 <= v -> Z.of_nat n <= MAXINTERESTPERIOD -> 0 <= interest_of v n <= v.
Proof.
  intros Hv Hn. unfold interest_of. rewrite rate_at_0.
  pose proof (rate_at_bounds n Hn) as Hr.
  pose proof (scaled_bounds v (rate_at n) Hv Hr). lia.
Qed.

Lemma interest_of_mono_periods (v : Z) (n m : nat) :
  0 <= v -> (n <= m)%nat -> Z.of_nat m <= MAXINTERESTPERIOD ->
  interest_of v n <= interest_of v m.
Proof.
  intros Hv Hnm Hm. unfold interest_of. rewrite rate_at_0.
  pose proof (rate_at_mono n m Hnm Hm) as Hr.
  apply Z.sub_le_mono_r. apply Z.div_le_mono; [lia|]. nia.
Qed.

Lemma value_with_interest_mono (v1 v2 : Z) (n : nat) :
  0 <= v1 <= v2 -> Z.of_nat n <= MAXINTERESTPERIOD ->
  v1 + interest_of v1 n <= v2 + interest_of v2 n.
Proof.
  intros Hv Hn. unfold interest_of. rewrite rate_at_0.
  pose proof (rate_at_bounds n Hn) as Hr.
  assert (v1 * rate_at n / 2 ^ 62 <= v2 * rate_at n / 2 ^ 62); [|lia].
  apply Z.div_le_mono; [lia|]. nia.
Qed.

Lemma interest_of_split (a b : Z) (n : nat) :
  0 <= a -> 0 <= b ->
  interest_of a n + interest_of b n <= interest_of (a + b) n
  <= interest_of a n + interest_of b n + 1.
Proof.
  intros Ha Hb. unfold interest_of. rewrite rate_at_0.
  set (r := rate_at n).
  pose proof (Z.div_mod (a * r) (2 ^ 62) ltac:(lia)) as Da.
  pose proof (Z.mod_pos_bound (a * r) (2 ^ 62) ltac:(lia)) as Ma.
  pose proof (Z.div_mod (b * r) (2 ^ 62) ltac:(lia)) as Db.
  pose proof (Z.mod_pos_bound (b * r) (2 ^ 62) ltac:(lia)) as Mb.
  pose proof (Z.div_mod ((a + b) * r) (2 ^ 62) ltac:(lia)) as Dab.
  pose proof (Z.mod_pos_bound ((a + b) * r) (2 ^ 62) ltac:(lia)) as Mab.
  assert (E : (a + b) * r = a * r + b * r) by ring.
  rewrite E in *. lia.
Qed.

Lemma rate_at_final : rate_at (Z.to_nat MAXINTERESTPERIOD) = 5078493949947319000.
Proof.
  rewrite rate_at_raw by (rewrite MAXINTERESTPERIOD_eq; lia).
  rewrite MAXINTERESTPERIOD_eq. exact rate_raw_final.
Qed.

Lemma interest_of_yearly (v : Z) (n : nat) :
  0 <= v -> Z.of_nat n <= MAXINTERESTPERIOD ->
  1000000 * interest_of v n <= 101223 * v.
Proof.
  intros Hv Hn.
  pose proof MAXINTERESTPERIOD_eq as HM.
  pose proof (interest_of_mono_periods v n (Z.to_nat MAXINTERESTPERIOD) Hv
                ltac:(lia) ltac:(lia)) as Hm.
  assert (1000000 * interest_of v (Z.to_nat MAXINTERESTPERIOD) <= 101223 * v); [|lia].
  unfold interest_of. rewrite rate_at_0, rate_at_final.
  pose proof (Z.div_mod (v * 5078493949947319000) (2 ^ 62) ltac:(lia)) as D.
  pose proof (Z.mod_pos_bound (v * 5078493949947319000) (2 ^ 62) ltac:(lia)) as M.
  lia.
Qed.

Lemma interest_of_full_year (v : Z) :
  0 <= v ->
  101222 * v - 1000000 < 1000000 * interest_of v (Z.to_nat MAXINTERESTPERIOD).
Proof.
  intros Hv. unfold interest_of. rewrite rate_at_0, rate_at_final.
  pose proof (Z.div_mod (v * 5078493949947319000) (2 ^ 62) ltac:(lia)) as D.
  pose proof (Z.mod_pos_bound (v * 5078493949947319000) (2 ^ 62) ltac:(lia)) as M.
  lia.
Qed.

(** X1: on the startup table, for a value in [0, MAX_MONEY] and heights of
    type [int], the effective value never decreases as the valuation height
    grows, and it stays flat once [MAXINTERESTPERIOD] blocks have passed
    since a creation height [hc >= 0]: from there on it is the value at
    [hc + MAXINTERESTPERIOD]. *)
Theorem GetInterest_monotone_in_height (v hc h1 h2 : Z) :
  0 <= v <= MAX_MONEY -> hc <= INT_MAX -> h1 <= h2 -> h2 <= INT_MAX ->
  at_startup (fun R =>
    exists e1 e2,
      GetInterest R v hc h1 = Some e1 /\ GetInterest R v hc h2 = Some e2 /\ e1 <= e2 /\
      (0 <= hc -> hc + MAXINTERESTPERIOD <= h1 -> e1 = e2) /\
      (0 <= hc ->
       forall h, hc + MAXINTERESTPERIOD <= h -> h <= INT_MAX ->
                 GetInterest R v hc h = GetInterest R v hc (hc + MAXINTERESTPERIOD))).
Proof.
  intros Hv Hc H12 H2. apply at_startup_intro. intros R HR.
  exists (v + interest_of v (elapsed hc h1)), (v + interest_of v (elapsed hc h2)).
  split; [apply GetInterest_elapsed; try assumption; lia|].
  split; [apply GetInterest_elapsed; assumption|].
  pose proof (interest_of_mono_periods v _ _ (proj1 Hv) (elapsed_mono hc h1 h2 H12)
                (elapsed_bound hc h2)).
  split; [lia|]. split.
  - intros H0 Hsat.
    rewrite (elapsed_saturated hc h1 H0 Hsat), (elapsed_saturated hc h2 H0 ltac:(lia)).
    reflexivity.
  - intros H0 h Hsat Hmax.
    rewrite (GetInterest_elapsed R v hc h HR Hv Hc Hmax).
    rewrite (GetInterest_elapsed R v hc (hc + MAXINTERESTPERIOD) HR Hv Hc ltac:(lia)).
    rewrite (elapsed_saturated hc h H0 Hsat).
    rewrite (elapsed_saturated hc (hc + MAXINTERESTPERIOD) H0 ltac:(lia)).
    reflexivity.
Qed.

Lemma GetInterest_monotone_in_height_witness :
  at_startup (fun R =>
    exists e1 e2,
      GetInterest R COIN 100 150 = Some e1 /\ GetInterest R COIN 100 2000 = Some e2 /\ e1 <= e2 /\
      (0 <= 100 -> 100 + MAXINTERESTPERIOD <= 150 -> e1 = e2) /\
      (0 <= 100 ->
       forall h, 100 + MAXINTERESTPERIOD <= h -> h <= INT_MAX ->
                 GetInterest R COIN 100 h = GetInterest R COIN 100 (100 + MAXINTERESTPERIOD))).
Proof.
  apply (GetInterest_monotone_in_height COIN 100 150 2000);
    unfold MAX_MONEY, COIN, INT_MAX; lia.
Defined.

(** X2: on the startup table, between the same two heights a larger value
    has at least the effective value of a smaller one. *)
Theorem GetInterest_monotone_in_value (v1 v2 hc hv : Z) :
  0 <= v1 <= v2 -> v2 <= MAX_MONEY -> hc <= INT_MAX -> hv <= INT_MAX ->
  at_startup (fun R =>
    exists e1 e2,
      GetInterest R v1 hc hv = Some e1 /\ GetInterest R v2 hc hv = Some e2 /\ e1 <= e2).
Proof.
  intros Hv Hv2 Hc Hh. apply at_startup_intro. intros R HR.
  exists (v1 + interest_of v1 (elapsed hc hv)), (v2 + interest_of v2 (elapsed hc hv)).
  split; [apply GetInterest_elapsed; try assumption; lia|].
  split; [apply GetInterest_elapsed; try assumption; lia|].
  apply value_with_interest_mono; [exact Hv | apply elapsed_bound].
Qed.

Lemma GetInterest_monotone_in_value_witness :
  at_startup (fun R =>
    exists e1 e2,
      GetInterest R COIN 100 2000 = Some e1 /\ GetInterest R (2 * COIN) 100 2000 = Some e2 /\
      e1 <= e2).
Proof.
  apply (GetInterest_monotone_in_value COIN (2 * COIN) 100 2000);
    unfold MAX_MONEY, COIN, INT_MAX; lia.
Defined.

(** X3: on the startup table, two outputs of values [a] and [b] created at
    the same height are together worth the single output of value [a + b],
    or one unit less: splitting a value gains nothing and loses at most the
    one unit the truncating division drops. *)
Theorem GetInterest_split (a b hc hv : Z) :
  0 <= a -> 0 <= b -> a + b <= MAX_MONEY -> hc <= INT_MAX -> hv <= INT_MAX ->
  at_startup (fun R =>
    exists ea eb eab,
      GetInterest R a hc hv = Some ea /\ GetInterest R b hc hv = Some eb /\
      GetInterest R (a + b) hc hv = Some eab /\
      ea + eb <= eab <= ea + eb + 1).
Proof.
  intros Ha Hb Hab Hc Hh. apply at_startup_intro. intros R HR.
  exists (a + interest_of a (elapsed hc hv)), (b + interest_of b (elapsed hc hv)),
    (a + b + interest_of (a + b) (elapsed hc hv)).
  split; [apply GetInterest_elapsed; try assumption; lia|].
  split; [apply GetInterest_elapsed; try assumption; lia|].
  split; [apply GetInterest_elapsed; try assumption; lia|].
  pose proof (interest_of_split a b (elapsed hc hv) Ha Hb). lia.
Qed.

Lemma GetInterest_split_witness :
  at_startup (fun R =>
    exists ea eb eab,
      GetInterest R COIN 100 2000 = Some ea /\ GetInterest R 12345 100 2000 = Some eb /\
      GetInterest R (COIN + 12345) 100 2000 = Some eab /\
      ea + eb <= eab <= ea + eb + 1).
Proof.
  apply (GetInterest_split COIN 12345 100 2000);
    unfold MAX_MONEY, COIN, INT_MAX; lia.
Defined.

(** X4: on the startup table the interest on a value in [0, MAX_MONEY] is
    never more than 10.1223 % of it, whatever the heights; and from
    [MAXINTERESTPERIOD] blocks after a creation height [hc >= 0] on it is
    more than 10.1222 % of the value less one unit. *)
Theorem GetInterest_yearly_rate (v hc hv : Z) :
  0 <= v <= MAX_MONEY -> hc <= INT_MAX -> hv <= INT_MAX ->
  at_startup (fun R =>
    exists e,
      GetInterest R v hc hv = Some e /\
      v <= e /\ 1000000 * (e - v) <= 101223 * v /\
      (0 <= hc -> hc + MAXINTERESTPERIOD <= hv ->
       101222 * v - 1000000 < 1000000 * (e - v))).
Proof.
  intros Hv Hc Hh. apply at_startup_intro. intros R HR.
  exists (v + interest_of v (elapsed hc hv)).
  split; [apply GetInterest_elapsed; assumption|].
  pose proof (interest_of_bounds v _ (proj1 Hv) (elapsed_bound hc hv)) as Hb.
  pose proof (interest_of_yearly v _ (proj1 Hv) (elapsed_bound hc hv)) as Hy.
  split; [lia|]. split; [lia|].
  intros H0 Hsat. rewrite (elapsed_saturated hc hv H0 Hsat).
  pose proof (interest_of_full_year v (proj1 Hv)). lia.
Qed.

Lemma GetInterest_yearly_rate_witness :
  at_startup (fun R =>
    exists e,
      GetInterest R (100 * COIN) 1000 500000 = Some e /\
      100 * COIN <= e /\ 1000000 * (e - 100 * COIN) <= 101223 * (100 * COIN) /\
      (0 <= 1000 -> 1000 + MAXINTERESTPERIOD <= 500000 ->
       101222 * (100 * COIN) - 1000000 < 1000000 * (e - 100 * COIN))).
Proof.
  apply (GetInterest_yearly_rate (100 * COIN) 1000 500000);
    unfold MAX_MONEY, COIN, INT_MAX; lia.
Defined.

(** ** The startup table does not depend on what the array held *)

Lemma is_rate_table_unique (R R' : list Z) : is_rate_table R -> is_rate_table R' -> R = R'.
Proof.
  intros [HL HG] [HL' HG']. pose proof MAXINTERESTPERIOD_eq as HM.
  apply list_eq. intros i.
  destruct (Z.le_gt_cases (Z.of_nat i) MAXINTERESTPERIOD) as [Hi|Hi].
  - rewrite HG, HG' by exact Hi. reflexivity.
  - rewrite (lookup_ge_None_2 R), (lookup_ge_None_2 R') by lia. reflexivity.
Qed.

(** X5: [initRateTable] overwrites every entry it reads: on an array of the
    size of [rateTable], whatever it holds, it returns the table and the dump
    it returns on the zero-initialised array, and running it again on its
    own table changes nothing. *)
Theorem initRateTable_overwrites (table0 : list Z) :
  length table0 = Z.to_nat (1108 * 365 + 1) ->
  initRateTable table0 = initRateTable rateTable_static /\
  exists R dump, initRateTable table0 = Some (R, dump) /\ initRateTable R = Some (R, dump).
Proof.
  intros Hlen.
  destruct (initRateTable_spec table0 Hlen) as (R & HR & Ht).
  destruct initRateTable_startup as (R0 & HR0 & Ht0).
  destruct (initRateTable_spec R (proj1 Ht)) as (R1 & HR1 & Ht1).
  rewrite (is_rate_table_unique R0 R Ht0 Ht) in HR0.
  rewrite (is_rate_table_unique R1 R Ht1 Ht) in HR1.
  split.
  - rewrite HR, HR0. reflexivity.
  - exists R. eexists. split; [exact HR | exact HR1].
Qed.

Lemma initRateTable_overwrites_witness :
  initRateTable (replicate (Z.to_nat (1108 * 365 + 1)) 7) = initRateTable rateTable_static /\
  exists R dump,
    initRateTable (replicate (Z.to_nat (1108 * 365 + 1)) 7) = Some (R, dump) /\
    initRateTable R = Some (R, dump).
Proof.
  apply (initRateTable_overwrites (replicate (Z.to_nat (1108 * 365 + 1)) 7)).
  apply length_replicate.
Defined.

(** ** Transactions *)

Lemma MoneyRange_spec (v : Z) : MoneyRange v = true <-> 0 <= v <= MAX_MONEY.
Proof.
  unfold MoneyRange. rewrite andb_true_iff, Z.leb_le, Z.leb_le. reflexivity.
Qed.

Lemma total_value_nonneg (outs : list CTxOut) :
  Forall (fun out => 0 <= nValue out <= MAX_MONEY) outs -> 0 <= total_value outs.
Proof.
  induction 1 as [|o outs Ho _ IH]; cbn [total_value foldr]; [lia|].
  fold (total_value outs). lia.
Qed.

Lemma GetValueOut_loop_spec (outs : list CTxOut) :
  forall acc s, 0 <= acc <= MAX_MONEY ->
    GetValueOut_loop acc outs = Some s <->
    Forall (fun out => 0 <= nValue out <= MAX_MONEY) outs /\
    acc + total_value outs <= MAX_MONEY /\ s = acc + total_value outs.
Proof.
  induction outs as [|o outs IH]; intros acc s Hacc.
  - cbn [GetValueOut_loop total_value foldr]. split.
    + intros [= <-]. split; [constructor|]. lia.
    + intros (_ & _ & ->). f_equal. lia.
  - cbn [GetValueOut_loop total_value foldr]. fold (total_value outs).
    pose proof MAX_MONEY_eq as HM.
    destruct (MoneyRange (nValue o)) eqn:Ho.
    + apply MoneyRange_spec in Ho. cbn [negb orb].
      rewrite to_int64_id by lia.
      destruct (MoneyRange (acc + nValue o)) eqn:Hsum.
      * apply MoneyRange_spec in Hsum. cbn [negb]. rewrite (IH _ s Hsum).
        split.
        -- intros (HF & Hle & ->). split; [constructor; assumption|]. lia.
        -- intros (HF & Hle & ->). apply Forall_cons_1 in HF as [_ HF].
           split; [exact HF|]. lia.
      * cbn [negb]. split; [discriminate|].
        intros (HF & Hle & _). apply Forall_cons_1 in HF as [_ HF].
        pose proof (total_value_nonneg outs HF).
        assert (MoneyRange (acc + nValue o) = true) by (apply MoneyRange_spec; lia).
        congruence.
    + cbn [negb orb]. split; [discriminate|].
      intros (HF & _). apply Forall_cons_1 in HF as [Hv _].
      apply MoneyRange_spec in Hv. congruence.
Qed.

(** X6: [GetValueOut] returns a total exactly when every output value lies
    in [0, MAX_MONEY] and their sum is at most [MAX_MONEY]; the total is then
    that sum, the 64-bit additions never wrapping; in every other case it
    throws. *)
Theorem GetValueOut_spec (tx : CTransaction.t) :
  (forall s, GetValueOut tx = Some s <->
             Forall (fun out => 0 <= nValue out <= MAX_MONEY) (CTransaction.vout tx) /\
             total_value (CTransaction.vout tx) <= MAX_MONEY /\
             s = total_value (CTransaction.vout tx)) /\
  (GetValueOut tx = None <->
   ~ (Forall (fun out => 0 <= nValue out <= MAX_MONEY) (CTransaction.vout tx) /\
      total_value (CTransaction.vout tx) <= MAX_MONEY)).
Proof.
  assert (H : forall s, GetValueOut tx = Some s <->
             Forall (fun out => 0 <= nValue out <= MAX_MONEY) (CTransaction.vout tx) /\
             total_value (CTransaction.vout tx) <= MAX_MONEY /\
             s = total_value (CTransaction.vout tx)).
  { intros s. unfold GetValueOut.
    rewrite (GetValueOut_loop_spec _ 0 s) by (rewrite MAX_MONEY_eq; lia).
    rewrite !Z.add_0_l. reflexivity. }
  split; [exact H|]. split.
  - intros HN (HF & Hle).
    assert (GetValueOut tx = Some (total_value (CTransaction.vout tx))) as E
      by (apply H; auto).
    congruence.
  - intros Hnot. destruct (GetValueOut tx) as [s|] eqn:E; [|reflexivity].
    exfalso. apply Hnot. destruct (proj1 (H s) eq_refl) as (HF & Hle & _). auto.
Qed.

Lemma modified_size_step_bounds (s : Z) (it : CTxIn) :
  0 <= s < 2 ^ 32 ->
  0 <= modified_size_step s it <= s /\ s - 151 <= modified_size_step s it /\
  (0 < s -> 0 < modified_size_step s it).
Proof.
  intros Hs. unfold modified_size_step.
  set (len := to_uint32 (Z.of_nat (length (scriptSig it)))).
  assert (Hlen : 0 <= len) by (apply Z.mod_pos_bound; lia).
  rewrite (to_uint32_id (41 + Z.min 110 len)) by lia.
  destruct (Z.ltb_spec (41 + Z.min 110 len) s) as [Hlt|Hge].
  - rewrite to_uint32_id by lia. lia.
  - lia.
Qed.

Lemma modified_size_fold (vin : list CTxIn) :
  forall s, 0 <= s < 2 ^ 32 ->
    0 <= fold_left modified_size_step vin s <= s /\
    s - 151 * Z.of_nat (length vin) <= fold_left modified_size_step vin s /\
    (0 < s -> 0 < fold_left modified_size_step vin s).
Proof.
  induction vin as [|it vin IH]; intros s Hs; cbn [fold_left length].
  - lia.
  - destruct (modified_size_step_bounds s it Hs) as (H1 & H2 & H3).
    destruct (IH (modified_size_step s it) ltac:(lia)) as (I1 & I2 & I3).
    split; [lia|]. split; [lia|]. intros Hpos. apply I3, H3, Hpos.
Qed.

(** X7: for a size argument of type [unsigned int], [CalculateModifiedSize]
    starts from that size, or from [GetTxSize()] when it is 0, and returns a
    size that is at most the starting one, at least the starting one less
    151 per input, and 0 only when the starting size is 0: no subtraction
    wraps. *)
Theorem CalculateModifiedSize_bounds (GetSerializeSize : CTransaction.t -> Z)
    (tx : CTransaction.t) (nSize : Z) :
  0 <= nSize < 2 ^ 32 ->
  let start := if nSize =? 0 then to_uint32 (GetTxSize GetSerializeSize tx) else nSize in
  let result := CalculateModifiedSize GetSerializeSize tx nSize in
  0 <= result <= start /\
  start - 151 * Z.of_nat (length (CTransaction.vin tx)) <= result /\
  (result = 0 <-> start = 0).
Proof.
  intros Hn start result.
  assert (Hs : 0 <= start < 2 ^ 32).
  { unfold start. destruct (nSize =? 0); [apply Z.mod_pos_bound; lia | exact Hn]. }
  destruct (modified_size_fold (CTransaction.vin tx) start Hs) as (H1 & H2 & H3).
  change (fold_left modified_size_step (CTransaction.vin tx) start) with result in H1, H2, H3.
  split; [exact H1|]. split; [exact H2|]. lia.
Qed.

Lemma CalculateModifiedSize_bounds_witness :
  let tx := {| CTransaction.nTxSize := 0; CTransaction.nVersion := 1;
               CTransaction.vin := [ {| prevout := {| COutPoint.hash := []; COutPoint.n := 0 |};
                                        scriptSig := replicate 200 7; nSequence := 0 |} ];
               CTransaction.vout := []; CTransaction.nLockTime := 0 |} in
  let start := if 300 =? 0 then to_uint32 (GetTxSize (fun _ => 0) tx) else 300 in
  let result := CalculateModifiedSize (fun _ => 0) tx 300 in
  0 <= result <= start /\
  start - 151 * Z.of_nat (length (CTransaction.vin tx)) <= result /\
  (result = 0 <-> start = 0).
Proof.
  intros tx. apply (CalculateModifiedSize_bounds (fun _ => 0) tx 300). lia.
Defined.

(** ** Data outputs *)

(** X8: a transaction in which [HasData(dataID)] finds an output also has
    data for [HasData()]. *)
Theorem HasData_dataID_HasData (OP_RETURN : Z) (tx : CTransaction.t) (dataID : Z) :
  HasData_dataID OP_RETURN tx dataID = true -> HasData OP_RETURN tx = true.
Proof.
  unfold HasData_dataID, HasData. rewrite !existsb_exists.
  intros (out & Hin & H). exists out. split; [exact Hin|].
  apply andb_prop in H as [H _]. apply andb_prop in H as [H _].
  apply andb_prop in H as [Hlen Hop].
  rewrite Hop, andb_true_r. apply Z.leb_le. apply Z.leb_le in Hlen. lia.
Qed.

Lemma HasData_dataID_HasData_witness :
  let tx := {| CTransaction.nTxSize := 0; CTransaction.nVersion := 1;
               CTransaction.vin := [];
               CTransaction.vout := [ {| nValue := 0; scriptPubKey := [106; 4; 1; 0; 0; 0] |} ];
               CTransaction.nLockTime := 0 |} in
  HasData_dataID 106 tx 1 = true /\ HasData 106 tx = true.
Proof.
  intros tx.
  assert (H : HasData_dataID 106 tx 1 = true) by reflexivity.
  split; [exact H | exact (HasData_dataID_HasData 106 tx 1 H)].
Defined.

Lemma lor_shiftl_add (a b k : Z) :
  0 <= k -> 0 <= a < 2 ^ k -> Z.lor a (Z.shiftl b k) = a + b * 2 ^ k.
Proof.
  intros Hk Ha. rewrite Z.shiftl_mul_pow2 by exact Hk.
  assert (Hland : Z.land a (b * 2 ^ k) = 0).
  { apply Z.bits_inj'. intros i Hi. rewrite Z.land_spec, Z.bits_0.
    destruct (Z.lt_ge_cases i k) as [Hlt|Hge].
    - rewrite Z.mul_pow2_bits_low by lia. apply andb_false_r.
    - rewrite <- (Z.mod_small a (2 ^ k)) by exact Ha.
      rewrite Z.mod_pow2_bits_high by lia. reflexivity. }
  rewrite <- Z.lxor_lor by exact Hland. symmetry. apply Z.add_nocarry_lxor. exact Hland.
Qed.

Lemma ReadLE32_bytes (b0 b1 b2 b3 : Z) :
  is_byte b0 -> is_byte b1 -> is_byte b2 -> is_byte b3 ->
  ReadLE32 b0 b1 b2 b3 = b0 + 256 * b1 + 65536 * b2 + 16777216 * b3.
Proof.
  unfold is_byte. intros H0 H1 H2 H3. unfold ReadLE32.
  rewrite (lor_shiftl_add b0 b1 8) by lia.
  replace (Z.shiftl b3 24) with (Z.shiftl (Z.shiftl b3 8) 16)
    by (rewrite Z.shiftl_shiftl by lia; reflexivity).
  rewrite <- Z.shiftl_lor.
  rewrite (lor_shiftl_add b2 b3 8) by lia.
  rewrite (lor_shiftl_add (b0 + b1 * 2 ^ 8) (b2 + b3 * 2 ^ 8) 16) by lia.
  lia.
Qed.

Lemma le_bytes_4 (x : Z) :
  0 <= x < 2 ^ 32 ->
  exists b0 b1 b2 b3,
    le_bytes 4 x = [b0; b1; b2; b3] /\
    is_byte b0 /\ is_byte b1 /\ is_byte b2 /\ is_byte b3 /\
    x = b0 + 256 * b1 + 65536 * b2 + 16777216 * b3.
Proof.
  intros Hx. cbn [le_bytes]. unfold is_byte.
  exists (x mod 256), (x / 256 mod 256), (x / 256 / 256 mod 256),
    (x / 256 / 256 / 256 mod 256).
  split; [reflexivity|].
  pose proof (Z.div_mod x 256 ltac:(lia)).
  pose proof (Z.mod_pos_bound x 256 ltac:(lia)).
  pose proof (Z.div_mod (x / 256) 256 ltac:(lia)).
  pose proof (Z.mod_pos_bound (x / 256) 256 ltac:(lia)).
  pose proof (Z.div_mod (x / 256 / 256) 256 ltac:(lia)).
  pose proof (Z.mod_pos_bound (x / 256 / 256) 256 ltac:(lia)).
  pose proof (Z.div_mod (x / 256 / 256 / 256) 256 ltac:(lia)).
  pose proof (Z.mod_pos_bound (x / 256 / 256 / 256) 256 ltac:(lia)).
  lia.
Qed.

Lemma bytes_4_unique (a0 a1 a2 a3 b0 b1 b2 b3 : Z) :
  is_byte a0 -> is_byte a1 -> is_byte a2 -> is_byte a3 ->
  is_byte b0 -> is_byte b1 -> is_byte b2 -> is_byte b3 ->
  a0 + 256 * a1 + 65536 * a2 + 16777216 * a3 = b0 + 256 * b1 + 65536 * b2 + 16777216 * b3 ->
  [a0; a1; a2; a3] = [b0; b1; b2; b3].
Proof.
  unfold is_byte. intros. assert (a0 = b0 /\ a1 = b1 /\ a2 = b2 /\ a3 = b3) as (-> & -> & -> & ->) by lia.
  reflexivity.
Qed.

(** X9: for an identifier of type [uint32_t] and outputs whose scripts are
    byte strings, [HasData(dataID)] holds exactly when some output's script
    is [OP_RETURN], the push opcode 4, the four bytes of [dataID] least
    significant first, and anything after them. *)
Theorem HasData_dataID_spec (OP_RETURN : Z) (tx : CTransaction.t) (dataID : Z) :
  0 <= dataID < 2 ^ 32 ->
  Forall (fun out => Forall is_byte (scriptPubKey out)) (CTransaction.vout tx) ->
  HasData_dataID OP_RETURN tx dataID = true <->
  exists out rest,
    In out (CTransaction.vout tx) /\
    scriptPubKey out = OP_RETURN :: 4 :: le_bytes 4 dataID ++ rest.
Proof.
  intros Hid Hbytes. unfold HasData_dataID. rewrite existsb_exists.
  destruct (le_bytes_4 dataID Hid) as (d0 & d1 & d2 & d3 & Hle & D0 & D1 & D2 & D3 & Hd).
  rewrite Hle. split.
  - intros (out & Hin & H). exists out.
    apply andb_prop in H as [H Hproto]. apply andb_prop in H as [H H4].
    apply andb_prop in H as [Hlen Hop].
    apply Z.leb_le in Hlen. apply Z.eqb_eq in Hop, H4, Hproto.
    pose proof (proj1 (List.Forall_forall _ _) Hbytes out Hin) as Hb. cbv beta in Hb.
    destruct (scriptPubKey out) as [|s0 [|s1 [|s2 [|s3 [|s4 [|s5 rest]]]]]];
      cbn [length] in Hlen; try lia.
    exists rest. split; [exact Hin|].
    unfold script_at in Hop, H4, Hproto. cbn [nth] in Hop, H4, Hproto.
    apply Forall_cons_1 in Hb as [_ Hb]. apply Forall_cons_1 in Hb as [_ Hb].
    apply Forall_cons_1 in Hb as [B2 Hb]. apply Forall_cons_1 in Hb as [B3 Hb].
    apply Forall_cons_1 in Hb as [B4 Hb]. apply Forall_cons_1 in Hb as [B5 _].
    rewrite ReadLE32_bytes in Hproto by assumption.
    subst s0 s1. cbn [app].
    pose proof (bytes_4_unique s2 s3 s4 s5 d0 d1 d2 d3 B2 B3 B4 B5 D0 D1 D2 D3 ltac:(lia)) as E.
    injection E as -> -> -> ->. reflexivity.
  - intros (out & rest & Hin & Hs). exists out. split; [exact Hin|].
    rewrite Hs. unfold script_at. cbn [app nth length].
    rewrite ReadLE32_bytes by assumption.
    rewrite !Z.eqb_refl. rewrite <- Hd. rewrite Z.eqb_refl.
    rewrite !andb_true_r. apply Z.leb_le. lia.
Qed.

Lemma HasData_dataID_spec_witness :
  let tx := {| CTransaction.nTxSize := 0; CTransaction.nVersion := 1;
               CTransaction.vin := [];
               CTransaction.vout := [ {| nValue := 0; scriptPubKey := [106; 4; 210; 4; 0; 0; 9] |} ];
               CTransaction.nLockTime := 0 |} in
  HasData_dataID 106 tx 1234 = true <->
  exists out rest,
    In out (CTransaction.vout tx) /\
    scriptPubKey out = 106 :: 4 :: le_bytes 4 1234 ++ rest.
Proof.
  intros tx. apply (HasData_dataID_spec 106 tx 1234); [lia|].
  constructor; [|constructor]. cbn [scriptPubKey].
  repeat (constructor; [unfold is_byte; lia|]). constructor.
Defined.

(** ** Block versions *)

Lemma land_zero_bits (a b : Z) :
  Z.land a b = 0 <-> forall i, 0 <= i -> Z.testbit a i && Z.testbit b i = false.
Proof.
  split.
  - intros H i Hi. rewrite <- Z.land_spec, H. apply Z.bits_0.
  - intros H. apply Z.bits_inj'. intros i Hi. rewrite Z.land_spec, Z.bits_0. apply H, Hi.
Qed.

Lemma to_uint32_bits (x i : Z) :
  0 <= i -> Z.testbit (to_uint32 x) i = (i <? 32) && Z.testbit x i.
Proof.
  intros Hi. unfold to_uint32, wrap_unsigned.
  destruct (Z.ltb_spec i 32) as [Hlt|Hge]; cbn [andb].
  - apply Z.mod_pow2_bits_low. lia.
  - apply Z.mod_pow2_bits_high. lia.
Qed.

Lemma BIP_009_MASK_bits (i : Z) : 0 <= i -> Z.testbit BIP_009_MASK i = (29 =? i).
Proof. intros Hi. change BIP_009_MASK with (2 ^ 29). apply Z.pow2_bits_eqb. lia. Qed.

Lemma VersionKnown_iff (nVersion voteBits : Z) :
  VersionKnown nVersion voteBits = true <->
  1 <= nVersion <= 4 \/
  (Z.testbit nVersion 29 = true /\
   forall i, 0 <= i < 32 -> i <> 29 ->
             Z.testbit nVersion i = true -> Z.testbit voteBits i = true).
Proof.
  unfold VersionKnown.
  destruct ((1 <=? nVersion) && (nVersion <=? 4)) eqn:Hsmall.
  { apply andb_prop in Hsmall as [H1 H4]. apply Z.leb_le in H1, H4.
    split; [intros _; left; lia | reflexivity]. }
  assert (Hno : ~ 1 <= nVersion <= 4).
  { intros [H1 H4]. apply Z.leb_le in H1, H4. rewrite H1, H4 in Hsmall. discriminate. }
  assert (Hbit : Z.land (to_uint32 nVersion) BIP_009_MASK = 0 <-> Z.testbit nVersion 29 = false).
  { rewrite land_zero_bits. split.
    - intros H. specialize (H 29 ltac:(lia)).
      rewrite to_uint32_bits, BIP_009_MASK_bits in H by lia.
      cbn in H. rewrite andb_true_r in H. exact H.
    - intros H i Hi. rewrite to_uint32_bits, BIP_009_MASK_bits by lia.
      destruct (Z.eqb_spec 29 i) as [<-|]; [|apply andb_false_r].
      rewrite H. reflexivity. }
  destruct (Z.eqb_spec (Z.land (to_uint32 nVersion) BIP_009_MASK) 0) as [Hz|Hnz]; cbn [negb].
  { apply Hbit in Hz. split; [discriminate|].
    intros [H|[H _]]; [contradiction | congruence]. }
  assert (H29 : Z.testbit nVersion 29 = true).
  { destruct (Z.testbit nVersion 29) eqn:E; [reflexivity|].
    exfalso. apply Hnz, Hbit. reflexivity. }
  cbv zeta.
  match goal with |- context [?x =? 0] => destruct (Z.eqb_spec x 0) as [Hv|Hv] end.
  - split; [|reflexivity]. intros _. right. split; [exact H29|].
    intros i Hi Hne Hset. rewrite land_zero_bits in Hv. specialize (Hv i ltac:(lia)).
    rewrite Z.land_spec, !to_uint32_bits, !Z.lnot_spec, BIP_009_MASK_bits in Hv by lia.
    destruct (Z.ltb_spec i 32) as [_|]; [|lia]. rewrite Hset in Hv.
    destruct (Z.eqb_spec 29 i) as [|_]; [lia|]. cbn in Hv.
    destruct (Z.testbit voteBits i); [reflexivity | discriminate].
  - split; [discriminate|]. intros [H|[_ H]]; [contradiction|].
    exfalso. apply Hv. apply land_zero_bits. intros i Hi.
    rewrite Z.land_spec, !to_uint32_bits, !Z.lnot_spec, BIP_009_MASK_bits by lia.
    destruct (Z.ltb_spec i 32) as [Hlt|]; [|reflexivity]. cbn [andb].
    destruct (Z.eqb_spec 29 i) as [<-|Hne];
      [cbn [negb]; rewrite andb_false_r; reflexivity|].
    destruct (Z.testbit nVersion i) eqn:Hset; [|reflexivity].
    rewrite (H i) by (try assumption; lia). reflexivity.
Qed.

(** X10: [VersionKnown(nVersion, voteBits)] holds exactly when [nVersion]
    is 1, 2, 3 or 4, or has bit 29 (the BIP 9 marker) set and every other
    bit of its 32 bits that is set is also set in [voteBits]; so a version
    known under some vote bits is known under every superset of them. *)
Theorem VersionKnown_spec (nVersion voteBits : Z) :
  (VersionKnown nVersion voteBits = true <->
   1 <= nVersion <= 4 \/
   (Z.testbit nVersion 29 = true /\
    forall i, 0 <= i < 32 -> i <> 29 ->
              Z.testbit nVersion i = true -> Z.testbit voteBits i = true)) /\
  (forall moreBits,
     (forall i, 0 <= i < 32 -> Z.testbit voteBits i = true -> Z.testbit moreBits i = true) ->
     VersionKnown nVersion voteBits = true -> VersionKnown nVersion moreBits = true).
Proof.
  split; [apply VersionKnown_iff|].
  intros moreBits Hsub. rewrite !VersionKnown_iff.
  intros [H|[H29 H]]; [left; exact H|]. right. split; [exact H29|].
  intros i Hi Hne Hset. apply Hsub; [exact Hi|]. apply H; assumption.
Qed.

(** ** Header equality *)

Lemma to_uint32_inj (a b : Z) :
  - 2 ^ 31 <= a < 2 ^ 31 -> - 2 ^ 31 <= b < 2 ^ 31 -> to_uint32 a = to_uint32 b -> a = b.
Proof.
  intros Ha Hb. unfold to_uint32, wrap_unsigned. intros E.
  pose proof (Z.div_mod a (2 ^ 32) ltac:(lia)) as Da.
  pose proof (Z.div_mod b (2 ^ 32) ltac:(lia)) as Db.
  pose proof (Z.mod_pos_bound a (2 ^ 32) ltac:(lia)) as Ma.
  pose proof (Z.mod_pos_bound b (2 ^ 32) ltac:(lia)) as Mb.
  lia.
Qed.

Lemma le_bytes_4_inj (x y : Z) :
  0 <= x < 2 ^ 32 -> 0 <= y < 2 ^ 32 -> le_bytes 4 x = le_bytes 4 y -> x = y.
Proof.
  intros Hx Hy E.
  destruct (le_bytes_4 x Hx) as (a0 & a1 & a2 & a3 & Ea & _ & _ & _ & _ & Hxa).
  destruct (le_bytes_4 y Hy) as (b0 & b1 & b2 & b3 & Eb & _ & _ & _ & _ & Hyb).
  rewrite Ea, Eb in E. injection E as -> -> -> ->. lia.
Qed.

Lemma to_uint32_range (x : Z) : 0 <= to_uint32 x < 2 ^ 32.
Proof. apply Z.mod_pos_bound. lia. Qed.

Lemma Serialize_inj (a b : CBlockHeader) :
  header_wf a -> header_wf b -> Serialize a = Serialize b -> a = b.
Proof.
  intros (Hva & Hpa & Hma & Hta & Hba & Hna) (Hvb & Hpb & Hmb & Htb & Hbb & Hnb).
  unfold Serialize. intros E.
  apply app_inj_1 in E as [E1 E]; [|rewrite !length_le_bytes; reflexivity].
  apply app_inj_1 in E as [E2 E]; [|congruence].
  apply app_inj_1 in E as [E3 E]; [|congruence].
  apply app_inj_1 in E as [E4 E]; [|rewrite !length_le_bytes; reflexivity].
  apply app_inj_1 in E as [E5 E6]; [|rewrite !length_le_bytes; reflexivity].
  apply le_bytes_4_inj in E1; [|apply to_uint32_range..].
  apply to_uint32_inj in E1; [|assumption..].
  apply le_bytes_4_inj in E4; [|assumption..].
  apply le_bytes_4_inj in E5; [|assumption..].
  apply le_bytes_4_inj in E6; [|assumption..].
  destruct a as [va pa ma ta ba na], b as [vb pb mb tb bb nb].
  cbn [nVersion hashPrevBlock hashMerkleRoot nTime nBits nNonce] in *.
  congruence.
Qed.

Lemma CBlockHeader_eq_true (a b : CBlockHeader) : CBlockHeader_eq a b = true <-> a = b.
Proof.
  unfold CBlockHeader_eq.
  rewrite !andb_true_iff, !Z.eqb_eq, !bool_decide_eq_true. split.
  - intros (((((E1 & E2) & E3) & E4) & E5) & E6).
    destruct a as [va pa ma ta ba na], b as [vb pb mb tb bb nb].
    cbn [nVersion hashPrevBlock hashMerkleRoot nTime nBits nNonce] in *.
    congruence.
  - intros ->. repeat split; reflexivity.
Qed.

(** X11: for two headers whose members hold values of their types,
    [operator==] holds exactly when their 80-byte serializations are the
    same; headers it tells apart differ in a serialized byte, and headers it
    equates have the same [GetHash] and [GetMidHash]. *)
Theorem CBlockHeader_eq_Serialize `{HashWrapper} (a b : CBlockHeader) :
  header_wf a -> header_wf b ->
  (CBlockHeader_eq a b = true <-> Serialize a = Serialize b) /\
  (CBlockHeader_eq a b = true -> GetHash a = GetHash b /\ GetMidHash a = GetMidHash b).
Proof.
  intros Ha Hb. rewrite CBlockHeader_eq_true. split.
  - split; [intros ->; reflexivity | apply Serialize_inj; assumption].
  - intros ->. split; reflexivity.
Qed.

Lemma CBlockHeader_eq_Serialize_witness :
  (CBlockHeader_eq null_header null_header = true <->
   Serialize null_header = Serialize null_header) /\
  (CBlockHeader_eq null_header null_header = true ->
   @GetHash sample_hashes null_header = @GetHash sample_hashes null_header /\
   @GetMidHash sample_hashes null_header = @GetMidHash sample_hashes null_header).
Proof.
  assert (Hwf : header_wf null_header).
  { unfold header_wf, null_header. cbn [nVersion hashPrevBlock hashMerkleRoot nTime nBits nNonce].
    rewrite length_replicate. lia. }
  exact (@CBlockHeader_eq_Serialize sample_hashes null_header null_header Hwf Hwf).
Defined.

(** ** Work *)

Lemma GetWork_valid (nBits t : Z) :
  0 <= nBits < 2 ^ 32 ->
  arith_uint256.SetCompact nBits = (t, false, false) -> 1 <= t ->
  GetWorkForDifficultyBits nBits = Some (2 ^ 256 / (t + 1)) /\ t <= 2 ^ 256 - 2.
Proof.
  intros Hn E Ht. destruct (SetCompact_range nBits Hn _ _ _ E) as [H0 Hov].
  specialize (Hov eq_refl).
  unfold GetWorkForDifficultyBits. rewrite E. cbn [orb].
  destruct (Z.eqb_spec t 0) as [|_]; [lia|].
  destruct (work_quotient t ltac:(lia)) as [Hq Hb].
  unfold arith_uint256.add, arith_uint256.div, arith_uint256.not.
  rewrite (wrap_unsigned_id 256 (t + 1)) by lia.
  destruct (Z.eqb_spec (t + 1) 0) as [|_]; [lia|].
  cbn [mbind option_bind].
  rewrite wrap_unsigned_id by lia. rewrite Hq. split; [reflexivity | exact Hov].
Qed.

(** X12: for two compact values that decode, without flags, to targets
    [1 <= t1 <= t2], the work of the smaller target is at least the work of
    the larger one, and both works lie between 1 and 2^255. *)
Theorem GetWorkForDifficultyBits_antitone (nBits1 nBits2 t1 t2 : Z) :
  0 <= nBits1 < 2 ^ 32 -> 0 <= nBits2 < 2 ^ 32 ->
  arith_uint256.SetCompact nBits1 = (t1, false, false) ->
  arith_uint256.SetCompact nBits2 = (t2, false, false) ->
  1 <= t1 <= t2 ->
  exists w1 w2,
    GetWorkForDifficultyBits nBits1 = Some w1 /\
    GetWorkForDifficultyBits nBits2 = Some w2 /\
    1 <= w2 <= w1 /\ w1 <= 2 ^ 255.
Proof.
  intros Hn1 Hn2 E1 E2 Ht.
  destruct (GetWork_valid nBits1 t1 Hn1 E1 ltac:(lia)) as [W1 U1].
  destruct (GetWork_valid nBits2 t2 Hn2 E2 ltac:(lia)) as [W2 U2].
  exists (2 ^ 256 / (t1 + 1)), (2 ^ 256 / (t2 + 1)).
  split; [exact W1|]. split; [exact W2|]. split; [split|].
  - apply Z.div_le_lower_bound; lia.
  - apply Z.div_le_compat_l; lia.
  - apply Z.div_le_upper_bound; [lia|].
    change (2 ^ 256) with (2 * 2 ^ 255). nia.
Qed.

Lemma GetWorkForDifficultyBits_antitone_witness :
  exists w1 w2,
    GetWorkForDifficultyBits 453281356 = Some w1 /\
    GetWorkForDifficultyBits 486604799 = Some w2 /\
    1 <= w2 <= w1 /\ w1 <= 2 ^ 255.
Proof.
  apply (GetWorkForDifficultyBits_antitone 453281356 486604799
           (296524 * 2 ^ 192) (65535 * 2 ^ 208));
    [lia | lia | vm_compute; reflexivity | vm_compute; reflexivity | lia].
Defined.

(** ** Signature-operation limit *)

(** X13: for a block size from 1 up to the largest [uint64_t],
    [GetMaxBlockSigOpsCount] is 20000 times the size in megabytes rounded
    up, without any wrap-around, hence at least 20000 and growing with the
    size; for size 0 the unsigned [nBlockSize - 1] wraps and the result is
    368934881474200000. *)
Theorem GetMaxBlockSigOpsCount_spec (nBlockSize : Z) :
  0 <= nBlockSize < 2 ^ 64 ->
  (1 <= nBlockSize ->
   GetMaxBlockSigOpsCount nBlockSize = 20000 * ((nBlockSize + 999999) / 1000000) /\
   20000 <= GetMaxBlockSigOpsCount nBlockSize /\
   forall smaller, 1 <= smaller <= nBlockSize ->
                   GetMaxBlockSigOpsCount smaller <= GetMaxBlockSigOpsCount nBlockSize) /\
  (nBlockSize = 0 -> GetMaxBlockSigOpsCount nBlockSize = 368934881474200000).
Proof.
  intros Hn. split.
  - intros H1.
    assert (Hf : forall n, 1 <= n < 2 ^ 64 ->
                   GetMaxBlockSigOpsCount n = 20000 * ((n + 999999) / 1000000)).
    { intros n Hr. unfold GetMaxBlockSigOpsCount, MAX_BLOCK_SIGOPS_PER_MB.
      rewrite (to_uint64_id (n - 1)) by lia.
      assert (Hq : 0 <= (n - 1) / 1000000 < 18446744073710).
      { split; [apply Z.div_pos; lia | apply Z.div_lt_upper_bound; lia]. }
      rewrite (to_uint64_id (1 + _)) by lia.
      rewrite to_uint64_id by lia.
      replace (n + 999999) with (n - 1 + 1 * 1000000) by lia.
      rewrite Z.div_add by lia. lia. }
    rewrite (Hf nBlockSize) by lia. split; [reflexivity|]. split.
    + assert (1 <= (nBlockSize + 999999) / 1000000)
        by (apply Z.div_le_lower_bound; lia). lia.
    + intros smaller Hs. rewrite (Hf smaller) by lia.
      assert ((smaller + 999999) / 1000000 <= (nBlockSize + 999999) / 1000000)
        by (apply Z.div_le_mono; lia). lia.
  - intros ->. reflexivity.
Qed.

Lemma GetMaxBlockSigOpsCount_spec_witness :
  (1 <= 1000001 ->
   GetMaxBlockSigOpsCount 1000001 = 20000 * ((1000001 + 999999) / 1000000) /\
   20000 <= GetMaxBlockSigOpsCount 1000001 /\
   forall smaller, 1 <= smaller <= 1000001 ->
                   GetMaxBlockSigOpsCount smaller <= GetMaxBlockSigOpsCount 1000001) /\
  (1000001 = 0 -> GetMaxBlockSigOpsCount 1000001 = 368934881474200000).
Proof.
  apply (GetMaxBlockSigOpsCount_spec 1000001). lia.
Defined.

(** ** bitcoin-tx: registers and deletions *)

Lemma string_length_app (a b : string) :
  String.length (String.append a b) = (String.length a + String.length b)%nat.
Proof.
  induction a as [|c a IH]; cbn [String.append String.length]; [reflexivity|].
  rewrite IH. reflexivity.
Qed.

Lemma string_find_app (c : ascii) (name value : string) :
  string_find c name = None ->
  string_find c (String.append name (String c value)) = Some (String.length name).
Proof.
  induction name as [|a name IH]; cbn [string_find String.append String.length].
  - intros _. rewrite Ascii.eqb_refl. reflexivity.
  - destruct (Ascii.eqb a c); [discriminate|].
    destruct (string_find c name) as [k|] eqn:E; [discriminate|].
    intros _. rewrite IH by reflexivity. reflexivity.
Qed.

Lemma string_find_split (c : ascii) (s : string) (pos : nat) :
  string_find c s = Some pos ->
  exists name value,
    s = String.append name (String c value) /\ String.length name = pos /\
    string_find c name = None.
Proof.
  revert pos. induction s as [|a s IH]; intros pos; cbn [string_find]; [discriminate|].
  destruct (Ascii.eqb_spec a c) as [->|Hne].
  - intros [= <-]. exists EmptyString, s. repeat split.
  - destruct (string_find c s) as [k|] eqn:E; [|discriminate].
    intros [= <-]. destruct (IH k eq_refl) as (name & value & -> & Hlen & Hnone).
    exists (String a name), value. cbn [String.append String.length string_find].
    split; [reflexivity|]. split; [congruence|].
    destruct (Ascii.eqb_spec a c) as [|_]; [contradiction|]. rewrite Hnone. reflexivity.
Qed.

Lemma substring_all (s : string) : substring 0 (String.length s) s = s.
Proof.
  induction s as [|c s IH]; cbn [substring String.length]; [reflexivity|].
  rewrite IH. reflexivity.
Qed.

Lemma substring_prefix (a b : string) :
  substring 0 (String.length a) (String.append a b) = a.
Proof.
  induction a as [|c a IH]; cbn [substring String.length String.append].
  - destruct b; reflexivity.
  - rewrite IH. reflexivity.
Qed.

Lemma substring_suffix (a : string) (c : ascii) (b : string) :
  substring (String.length a + 1) (String.length b) (String.append a (String c b)) = b.
Proof.
  induction a as [|x a IH]; cbn [substring String.length String.append Nat.add].
  - apply substring_all.
  - exact IH.
Qed.

Lemma RegisterSet_parsed (UniValue : Type) (read : string -> option UniValue)
    (registers : registers_t UniValue) (name value : string) :
  name <> EmptyString -> value <> EmptyString -> string_find ":" name = None ->
  RegisterSet UniValue read registers (String.append name (String ":" value))
  = RegisterSetJson UniValue read registers name value.
Proof.
  intros Hname Hvalue Hnone. unfold RegisterSet.
  rewrite (string_find_app _ _ _ Hnone).
  rewrite string_length_app. cbn [String.length].
  destruct name as [|a name]; [contradiction|].
  destruct value as [|b value]; [contradiction|].
  set (n := String.length (String a name)). set (v := String.length (String b value)).
  assert (Hn : (1 <= n)%nat) by (unfold n; cbn [String.length]; lia).
  assert (Hv : (1 <= v)%nat) by (unfold v; cbn [String.length]; lia).
  destruct (Nat.eqb_spec n 0) as [|_]; [lia|].
  destruct (Nat.eqb_spec n (n + S v - 1)) as [|_]; [lia|]. cbn [orb].
  replace (n + S v - (n + 1))%nat with v by lia.
  unfold n at 1. rewrite substring_prefix.
  unfold n, v. rewrite substring_suffix. reflexivity.
Qed.

(** X14: [RegisterSet] on [NAME:VALUE], with a non-empty [NAME] free of
    colons and a non-empty [VALUE], reads [VALUE] as JSON and stores it
    under [NAME], leaving every other register as it was, and throws when
    the JSON does not parse; on every input that is not of this form
    (no colon, a leading colon, or nothing after the first colon) it
    throws. *)
Theorem RegisterSet_spec (UniValue : Type) (read : string -> option UniValue)
    (registers : registers_t UniValue) (strInput : string) :
  (forall name value,
     name <> EmptyString -> value <> EmptyString -> string_find ":" name = None ->
     strInput = String.append name (String ":" value) ->
     match read value with
     | Some val =>
         exists registers',
           RegisterSet UniValue read registers strInput = Some registers' /\
           registers' name = Some val /\
           forall key, key <> name -> registers' key = registers key
     | None => RegisterSet UniValue read registers strInput = None
     end) /\
  (RegisterSet UniValue read registers strInput <> None ->
   exists name value,
     name <> EmptyString /\ value <> EmptyString /\ string_find ":" name = None /\
     strInput = String.append name (String ":" value)).
Proof.
  split.
  - intros name value Hname Hvalue Hnone ->.
    rewrite RegisterSet_parsed by assumption. unfold RegisterSetJson.
    destruct (read value) as [val|]; cbn [mbind option_bind]; [|reflexivity].
    eexists. split; [reflexivity|]. cbv beta. split.
    + rewrite String.eqb_refl. reflexivity.
    + intros key Hkey. destruct (String.eqb_spec key name) as [|_]; [contradiction|].
      reflexivity.
  - unfold RegisterSet. destruct (string_find ":" strInput) as [pos|] eqn:Hfind;
      [|intros H; exfalso; apply H; reflexivity].
    destruct (string_find_split _ _ _ Hfind) as (name & value & -> & Hlen & Hnone).
    rewrite string_length_app. cbn [String.length]. rewrite Hlen.
    destruct (Nat.eqb_spec pos 0) as [H0|H0];
      [intros H; exfalso; apply H; reflexivity|].
    destruct (Nat.eqb_spec pos (pos + S (String.length value) - 1)) as [Hl|Hl];
      [intros H; exfalso; apply H; reflexivity|].
    intros _. exists name, value. split.
    + intros ->. cbn [String.length] in Hlen. congruence.
    + split; [|split; [exact Hnone | reflexivity]].
      intros ->. cbn [String.length] in Hl. lia.
Qed.

Lemma RegisterSet_spec_witness :
  exists name value,
    name <> EmptyString /\ value <> EmptyString /\ string_find ":" name = None /\
    "fee:10"%string = String.append name (String ":" value).
Proof.
  apply (proj2 (RegisterSet_spec Z (fun s => Some (Z.of_nat (String.length s)))
                  (fun _ => None) "fee:10")).
  vm_compute. discriminate.
Defined.

Lemma total_value_cons (o : CTxOut) (outs : list CTxOut) :
  total_value (o :: outs) = nValue o + total_value outs.
Proof. reflexivity. Qed.

Lemma total_value_delete (outs : list CTxOut) :
  forall (i : nat) (out : CTxOut),
    outs !! i = Some out -> total_value (delete i outs) = total_value outs - nValue out.
Proof.
  induction outs as [|o outs IH]; intros i out; [discriminate|].
  destruct i as [|i].
  - intros [= ->]. change (delete 0%nat (out :: outs)) with outs.
    rewrite total_value_cons. lia.
  - intros H. change (delete (S i) (o :: outs)) with (o :: delete i outs).
    rewrite !total_value_cons. rewrite (IH i out H). lia.
Qed.

(** X15: [MutateTxDelOutput] on a transaction with fewer than 2^31 outputs
    whose [GetValueOut] is [total]: an index [atoi(strOutIdx)] inside the
    output list removes that one output (the outputs before it stay where
    they are, the outputs after it move down by one), leaves the inputs, the
    version and the lock time alone, and the new [GetValueOut] is [total]
    less the removed value; any other index throws. *)
Theorem MutateTxDelOutput_value (atoi : string -> Z) (tx : CMutableTransaction.t)
    (strOutIdx : string) (total : Z) :
  Z.of_nat (length (CMutableTransaction.vout tx)) < 2 ^ 31 ->
  GetValueOut (CTransaction_of tx) = Some total ->
  (0 <= atoi strOutIdx < Z.of_nat (length (CMutableTransaction.vout tx)) ->
   exists out tx',
     CMutableTransaction.vout tx !! Z.to_nat (atoi strOutIdx) = Some out /\
     MutateTxDelOutput atoi tx strOutIdx = Some tx' /\
     CMutableTransaction.vin tx' = CMutableTransaction.vin tx /\
     CMutableTransaction.nVersion tx' = CMutableTransaction.nVersion tx /\
     CMutableTransaction.nLockTime tx' = CMutableTransaction.nLockTime tx /\
     length (CMutableTransaction.vout tx') = pred (length (CMutableTransaction.vout tx)) /\
     (forall j : nat,
        CMutableTransaction.vout tx' !! j
        = CMutableTransaction.vout tx !! (if (Z.of_nat j <? atoi strOutIdx) then j else S j)) /\
     GetValueOut (CTransaction_of tx') = Some (total - nValue out)) /\
  (~ 0 <= atoi strOutIdx < Z.of_nat (length (CMutableTransaction.vout tx)) ->
   MutateTxDelOutput atoi tx strOutIdx = None).
Proof.
  intros Hsize Htotal. unfold MutateTxDelOutput. rewrite to_int_id by lia. split.
  - intros Hidx.
    destruct (Z.ltb_spec (atoi strOutIdx) 0) as [|_]; [lia|].
    destruct (Z.leb_spec (Z.of_nat (length (CMutableTransaction.vout tx))) (atoi strOutIdx))
      as [|_]; [lia|]. cbn [orb].
    destruct (lookup_lt_is_Some_2 (CMutableTransaction.vout tx) (Z.to_nat (atoi strOutIdx))
                ltac:(lia)) as [out Hout].
    exists out. eexists. split; [exact Hout|]. split; [reflexivity|].
    cbn [CMutableTransaction.vin CMutableTransaction.vout CMutableTransaction.nVersion
         CMutableTransaction.nLockTime].
    split; [reflexivity|]. split; [reflexivity|]. split; [reflexivity|]. split; [|split].
    + rewrite length_delete by (exists out; exact Hout). lia.
    + intros j. destruct (Z.ltb_spec (Z.of_nat j) (atoi strOutIdx)) as [Hlt|Hge].
      * apply list_lookup_delete_lt. lia.
      * apply list_lookup_delete_ge. lia.
    + unfold GetValueOut, CTransaction_of in *.
      cbn [CTransaction.vout CMutableTransaction.vout] in *.
      pose proof MAX_MONEY_eq as HM.
      apply (GetValueOut_loop_spec _ 0 total ltac:(lia)) in Htotal as (HF & Hle & ->).
      apply (GetValueOut_loop_spec _ 0 _ ltac:(lia)).
      rewrite (total_value_delete _ _ _ Hout).
      pose proof (proj1 (Forall_lookup _ _) HF _ _ Hout) as Hv. cbv beta in Hv.
      split; [apply Forall_delete; exact HF|]. lia.
  - intros Hidx.
    destruct (Z.ltb_spec (atoi strOutIdx) 0) as [|H0]; [reflexivity|].
    destruct (Z.leb_spec (Z.of_nat (length (CMutableTransaction.vout tx))) (atoi strOutIdx))
      as [|H1]; [reflexivity|]. lia.
Qed.

Lemma MutateTxDelOutput_value_witness :
  let tx := {| CMutableTransaction.nVersion := 1; CMutableTransaction.vin := [];
               CMutableTransaction.vout := [ {| nValue := 5; scriptPubKey := [81] |};
                                             {| nValue := 7; scriptPubKey := [82] |};
                                             {| nValue := 11; scriptPubKey := [83] |} ];
               CMutableTransaction.nLockTime := 0 |} in
  (0 <= 1 < Z.of_nat (length (CMutableTransaction.vout tx)) ->
   exists out tx',
     CMutableTransaction.vout tx !! Z.to_nat 1 = Some out /\
     MutateTxDelOutput (fun _ => 1) tx "1" = Some tx' /\
     CMutableTransaction.vin tx' = CMutableTransaction.vin tx /\
     CMutableTransaction.nVersion tx' = CMutableTransaction.nVersion tx /\
     CMutableTransaction.nLockTime tx' = CMutableTransaction.nLockTime tx /\
     length (CMutableTransaction.vout tx') = pred (length (CMutableTransaction.vout tx)) /\
     (forall j : nat,
        CMutableTransaction.vout tx' !! j
        = CMutableTransaction.vout tx !! (if (Z.of_nat j <? 1) then j else S j)) /\
     GetValueOut (CTransaction_of tx') = Some (23 - nValue out)) /\
  (~ 0 <= 1 < Z.of_nat (length (CMutableTransaction.vout tx)) ->
   MutateTxDelOutput (fun _ => 1) tx "1" = None).
Proof.
  intros tx. apply (MutateTxDelOutput_value (fun _ => 1) tx "1" 23);
    [vm_compute; reflexivity | vm_compute; reflexivity].
Defined.

(** X16: [MutateTxDelInput] on a transaction with fewer than 2^31 inputs:
    an index [atoi(strInIdx)] inside the input list yields the transaction
    with the inputs before it unchanged, the inputs after it moved down by
    one, and version, outputs and lock time untouched; any other index
    throws. *)
Theorem MutateTxDelInput_spec (atoi : string -> Z) (tx : CMutableTransaction.t)
    (strInIdx : string) :
  Z.of_nat (length (CMutableTransaction.vin tx)) < 2 ^ 31 ->
  (0 <= atoi strInIdx < Z.of_nat (length (CMutableTransaction.vin tx)) ->
   exists tx',
     MutateTxDelInput atoi tx strInIdx = Some tx' /\
     length (CMutableTransaction.vin tx') = pred (length (CMutableTransaction.vin tx)) /\
     (forall j : nat,
        CMutableTransaction.vin tx' !! j
        = CMutableTransaction.vin tx !! (if (Z.of_nat j <? atoi strInIdx) then j else S j)) /\
     CMutableTransaction.nVersion tx' = CMutableTransaction.nVersion tx /\
     CMutableTransaction.vout tx' = CMutableTransaction.vout tx /\
     CMutableTransaction.nLockTime tx' = CMutableTransaction.nLockTime tx) /\
  (~ 0 <= atoi strInIdx < Z.of_nat (length (CMutableTransaction.vin tx)) ->
   MutateTxDelInput atoi tx strInIdx = None).
Proof.
  intros Hsize. unfold MutateTxDelInput. rewrite to_int_id by lia. split.
  - intros Hidx.
    destruct (Z.ltb_spec (atoi strInIdx) 0) as [|_]; [lia|].
    destruct (Z.leb_spec (Z.of_nat (length (CMutableTransaction.vin tx))) (atoi strInIdx))
      as [|_]; [lia|]. cbn [orb].
    eexists. split; [reflexivity|].
    cbn [CMutableTransaction.vin CMutableTransaction.vout CMutableTransaction.nVersion
         CMutableTransaction.nLockTime].
    split; [|split; [|repeat split]].
    + rewrite length_delete by (apply lookup_lt_is_Some_2; lia). lia.
    + intros j. destruct (Z.ltb_spec (Z.of_nat j) (atoi strInIdx)) as [Hlt|Hge].
      * apply list_lookup_delete_lt. lia.
      * apply list_lookup_delete_ge. lia.
  - intros Hidx.
    destruct (Z.ltb_spec (atoi strInIdx) 0) as [|H0]; [reflexivity|].
    destruct (Z.leb_spec (Z.of_nat (length (CMutableTransaction.vin tx))) (atoi strInIdx))
      as [|H1]; [reflexivity|]. lia.
Qed.

Lemma MutateTxDelInput_spec_witness :
  let tx := {| CMutableTransaction.nVersion := 1;
               CMutableTransaction.vin :=
                 [ {| prevout := {| COutPoint.hash := replicate 32 1; COutPoint.n := 0 |};
                      scriptSig := []; nSequence := 10 |};
                   {| prevout := {| COutPoint.hash := replicate 32 2; COutPoint.n := 1 |};
                      scriptSig := []; nSequence := 20 |};
                   {| prevout := {| COutPoint.hash := replicate 32 3; COutPoint.n := 2 |};
                      scriptSig := []; nSequence := 30 |} ];
               CMutableTransaction.vout := []; CMutableTransaction.nLockTime := 0 |} in
  (0 <= 1 < Z.of_nat (length (CMutableTransaction.vin tx)) ->
   exists tx',
     MutateTxDelInput (fun _ => 1) tx "1" = Some tx' /\
     length (CMutableTransaction.vin tx') = pred (length (CMutableTransaction.vin tx)) /\
     (forall j : nat,
        CMutableTransaction.vin tx' !! j
        = CMutableTransaction.vin tx !! (if (Z.of_nat j <? 1) then j else S j)) /\
     CMutableTransaction.nVersion tx' = CMutableTransaction.nVersion tx /\
     CMutableTransaction.vout tx' = CMutableTransaction.vout tx /\
     CMutableTransaction.nLockTime tx' = CMutableTransaction.nLockTime tx) /\
  (~ 0 <= 1 < Z.of_nat (length (CMutableTransaction.vin tx)) ->
   MutateTxDelInput (fun _ => 1) tx "1" = None).
Proof.
  intros tx. apply (MutateTxDelInput_spec (fun _ => 1) tx "1"). vm_compute. reflexivity.
Defined.

(** ** AppInit2: limits *)



(** X18: for an argument whose product with 1000000 fits [int64_t], the
    mempool check of AppInit2 passes exactly when [-maxmempool] is at least
    5, the number its error message names, and the limit is then the
    argument times 1000000. *)
Theorem AppInit2_mempool_limit_spec (arg : Z) :
  - 9223372036854 <= arg <= 9223372036854 ->
  (arg < 5 -> AppInit2_mempool_limit arg = None) /\
  (5 <= arg -> AppInit2_mempool_limit arg = Some (arg * 1000000)).
Proof.
  intros Harg. unfold AppInit2_mempool_limit.
  rewrite to_int64_id by lia. change (Z.shiftl 1 22) with 4194304.
  split; intros H.
  - destruct (Z.ltb_spec (arg * 1000000) 0) as [|H0]; [reflexivity|].
    destruct (Z.ltb_spec (arg * 1000000) 4194304) as [|H1]; [reflexivity|]. lia.
  - destruct (Z.ltb_spec (arg * 1000000) 0) as [|H0]; [lia|].
    destruct (Z.ltb_spec (arg * 1000000) 4194304) as [|H1]; [lia|]. reflexivity.
Qed.

Lemma AppInit2_mempool_limit_spec_witness :
  (300 < 5 -> AppInit2_mempool_limit 300 = None) /\
  (5 <= 300 -> AppInit2_mempool_limit 300 = Some (300 * 1000000)).
Proof.
  apply (AppInit2_mempool_limit_spec 300). lia.
Defined.

(** ** Known answers *)

(** The two loops of [initRateTable] on a table of four entries. *)
Example loops_on_four_entries :
  (st ← for_range 1 4 fill_rate ([2 ^ 62; 0; 0; 0], EmptyString);
   str ← for_range 0 3 (dump_rate (fst st)) (snd st);
   Some (fst st, str))
  = Some ([4611686018427387904; 4611687117939015680; 4611688217450905600;
           4611689316963057664],
          String.append "1 4000010000000000" (String.append newline
          (String.append "2 4000020000040000" (String.append newline
          (String.append "3 40000300000c0000" (String.append newline
          (String.append "rate: 0 0" (String.append newline
          (String.append "rate: 1 2384" (String.append newline
          (String.append "rate: 2 4768" newline))))))))))).
Proof. vm_compute. reflexivity. Qed.

(** The scenario of the specification: 100 coins created at height 0. *)
Example hundred_coins_over_a_year :
  at_startup (fun R =>
    GetInterest R (100 * COIN) 0 0 = Some (100 * COIN) /\
    GetInterest R (100 * COIN) 0 1108 = Some (100 * COIN + 2642026) /\
    getRateForAmount R 1108 (100 * COIN) = Some 2642026 /\
    GetInterest R (100 * COIN) 0 404420 = Some (100 * COIN + 1012228346) /\
    getRateForAmount R 404420 (100 * COIN) = Some 1012228346 /\
    GetInterest R (100 * COIN) 0 404421 = Some (100 * COIN + 1012228346)).
Proof.
  apply at_startup_intro. intros R HR.
  pose proof MAXINTERESTPERIOD_eq as HM.
  assert (Hv : 0 <= 100 * COIN <= MAX_MONEY) by (unfold MAX_MONEY, COIN; lia).
  assert (E1 : interest_of (100 * COIN) (Z.to_nat 1108) = 2642026).
  { unfold interest_of. rewrite rate_at_raw by lia. rewrite rate_at_0.
    vm_compute. reflexivity. }
  assert (E2 : interest_of (100 * COIN) (Z.to_nat 404420) = 1012228346).
  { unfold interest_of. rewrite rate_at_raw by lia. rewrite rate_raw_final, rate_at_0.
    vm_compute. reflexivity. }
  assert (G : forall h, 0 <= h <= INT_MAX ->
            GetInterest R (100 * COIN) 0 h
            = Some (100 * COIN
                    + interest_of (100 * COIN) (Z.to_nat (Z.min h MAXINTERESTPERIOD)))).
  { intros h Hh. rewrite GetInterest_startup by (assumption || lia).
    rewrite Z.sub_0_r. reflexivity. }
  rewrite (G 0), (G 1108), (G 404420), (G 404421) by (unfold INT_MAX; lia).
  replace (Z.min 0 MAXINTERESTPERIOD) with 0 by lia.
  replace (Z.min 1108 MAXINTERESTPERIOD) with 1108 by lia.
  replace (Z.min 404420 MAXINTERESTPERIOD) with 404420 by lia.
  replace (Z.min 404421 MAXINTERESTPERIOD) with 404420 by lia.
  change (Z.to_nat 0) with 0%nat. rewrite interest_of_0, E1, E2, Z.add_0_r.
  destruct (getRateForAmount_startup R HR 1108 (100 * COIN)) as [G1 _];
    [lia | unfold COIN; lia |].
  destruct (getRateForAmount_startup R HR 404420 (100 * COIN)) as [G2 _];
    [lia | unfold COIN; lia |].
  rewrite G1, G2, E1, E2. repeat split; reflexivity.
Qed.

Example strprintf_d_x_first_row :
  strprintf_d_x 1 (rate_at 1) = String.append "1 4000010000000000" newline.
Proof. reflexivity. Qed.

Example strprintf_rate_negative :
  strprintf_rate 12 (-305) = String.append "rate: 12 -305" newline.
Proof. reflexivity. Qed.

Example MurmurHash3_empty : MurmurHash3 1 [] = 1364076727.
Proof. reflexivity. Qed.

Example MurmurHash3_abc : MurmurHash3 0 (bytes_of_string "abc") = 3017643002.
Proof. vm_compute. reflexivity. Qed.

Example MurmurHash3_hello :
  MurmurHash3 2538058380 (bytes_of_string "Hello, world!") = 612912314.
Proof. vm_compute. reflexivity. Qed.

Example SetCompact_small : arith_uint256.SetCompact 17970262 = (18, false, false).
Proof. vm_compute. reflexivity. Qed.

Example SetCompact_negative : arith_uint256.SetCompact 33479866 = (126, true, false).
Proof. vm_compute. reflexivity. Qed.

Example SetCompact_shifted :
  arith_uint256.SetCompact 538063958 = (1193046 * 2 ^ 232, false, false).
Proof. vm_compute. reflexivity. Qed.

Example SetCompact_overflow : snd (arith_uint256.SetCompact 4279383126) = true.
Proof. vm_compute. reflexivity. Qed.

Example UintToArith256_low_byte_first :
  UintToArith256 (1 :: replicate 31 0) = 1 /\
  UintToArith256 (replicate 31 0 ++ [1]) = 2 ^ 248 /\
  UintToArith256 worst_hash = 2 ^ 256 - 1.
Proof. vm_compute. repeat split; reflexivity. Qed.

Example Serialize_null_header : Serialize null_header = replicate 80 0.
Proof. vm_compute. reflexivity. Qed.

Example GetWork_difficulty_one : GetWorkForDifficultyBits 486604799 = Some 4295032833.
Proof. vm_compute. reflexivity. Qed.

Example round_threads_5 : round_threads 32 1 5 = Some 8.
Proof. vm_compute. reflexivity. Qed.

Example round_threads_negative : round_threads 32 1 (-3) = Some 1.
Proof. vm_compute. reflexivity. Qed.

Example round_threads_too_many : round_threads 64 1 (2 ^ 30 + 1) = None.
Proof. vm_compute. reflexivity. Qed.

Example VersionKnown_base : VersionKnown BASE_VERSION 0 = true.
Proof. vm_compute. reflexivity. Qed.

Example VersionKnown_fork_bit_unvoted : VersionKnown (Z.lor BASE_VERSION FORK_BIT_2MB) 0 = false.
Proof. vm_compute. reflexivity. Qed.

Example VersionKnown_fork_bit_voted :
  VersionKnown (Z.lor BASE_VERSION FORK_BIT_2MB) FORK_BIT_2MB = true.
Proof. vm_compute. reflexivity. Qed.

Example VersionKnown_five : VersionKnown 5 (-1) = false.
Proof. vm_compute. reflexivity. Qed.

Example GetMaxBlockSigOpsCount_one_megabyte : GetMaxBlockSigOpsCount 1000000 = 20000.
Proof. vm_compute. reflexivity. Qed.

Example GetMaxBlockSigOpsCount_just_over : GetMaxBlockSigOpsCount 1000001 = 40000.
Proof. vm_compute. reflexivity. Qed.

Example GetValueOut_loop_two : GetValueOut_loop 0 [ {| nValue := 5; scriptPubKey := [] |};
                                                    {| nValue := 7; scriptPubKey := [] |} ] = Some 12.
Proof. vm_compute. reflexivity. Qed.

Example GetValueOut_loop_negative :
  GetValueOut_loop 0 [ {| nValue := 5; scriptPubKey := [] |};
                       {| nValue := -1; scriptPubKey := [] |} ] = None.
Proof. vm_compute. reflexivity. Qed.

Example GetValueOut_loop_too_much :
  GetValueOut_loop 0 [ {| nValue := MAX_MONEY; scriptPubKey := [] |};
                       {| nValue := 1; scriptPubKey := [] |} ] = None.
Proof. vm_compute. reflexivity. Qed.

Example modified_size_step_small_script :
  modified_size_step 300 {| prevout := {| COutPoint.hash := []; COutPoint.n := 0 |};
                            scriptSig := replicate 20 7; nSequence := 0 |} = 239.
Proof. vm_compute. reflexivity. Qed.

Example modified_size_step_not_below_offset :
  modified_size_step 61 {| prevout := {| COutPoint.hash := []; COutPoint.n := 0 |};
                           scriptSig := replicate 20 7; nSequence := 0 |} = 61.
Proof. vm_compute. reflexivity. Qed.

Example string_find_colon : string_find ":" "fee:10" = Some 3%nat.
Proof. vm_compute. reflexivity. Qed.

Example RegisterSet_no_value :
  RegisterSet Z (fun s => Some 0) (fun _ => None) "fee:" = None.
Proof. vm_compute. reflexivity. Qed.

Example RegisterSet_second_colon :
  (r ← RegisterSet string (fun s => Some s) (fun _ => None) "a:b:c"; r "a"%string)
  = Some "b:c"%string.
Proof. vm_compute. reflexivity. Qed.

Example AppInit2_connection_limits_few_descriptors :
  AppInit2_connection_limits 150 (fun _ => 150) 0 0 125 8 = Some (-1, -1).
Proof. vm_compute. reflexivity. Qed.

Example AppInit2_mempool_limit_four : AppInit2_mempool_limit 4 = None.
Proof. vm_compute. reflexivity. Qed.

Example canonical_serialization_sample_tail :
  drop 68 (canonical_serialization sample_header)
  = [0; 16; 94; 95; 255; 255; 0; 29; 29; 172; 43; 124].
Proof. vm_compute. reflexivity. Qed.

Example canonical_serialization_sample_version :
  take 4 (canonical_serialization sample_header) = [0; 0; 0; 32].
Proof. vm_compute. reflexivity. Qed.

Example little_endian_value_last_byte_heaviest :
  little_endian_value (replicate 31 255 ++ [0]) < little_endian_value (replicate 31 0 ++ [1]).
Proof. vm_compute. reflexivity. Qed.

Example CheckProofOfWork_sample :
  CheckProofOfWork (@GetHash low_hashes sample_header) (nBits sample_header) = true.
Proof. vm_compute. reflexivity. Qed.

Example CheckProofOfWork_negative_target :
  CheckProofOfWork (@GetHash low_hashes negative_target_header)
                   (nBits negative_target_header) = false.
Proof. vm_compute. reflexivity. Qed.

Example SetCompact_negative_target :
  arith_uint256.SetCompact (nBits negative_target_header) = (126, true, false).
Proof. vm_compute. reflexivity. Qed.

Example MutateTxDelInput_middle :
  CMutableTransaction.vin <$>
    MutateTxDelInput (fun _ => 1)
      {| CMutableTransaction.nVersion := 1;
         CMutableTransaction.vin :=
           [ {| prevout := {| COutPoint.hash := []; COutPoint.n := 0 |};
                scriptSig := []; nSequence := 10 |};
             {| prevout := {| COutPoint.hash := []; COutPoint.n := 1 |};
                scriptSig := []; nSequence := 20 |};
             {| prevout := {| COutPoint.hash := []; COutPoint.n := 2 |};
                scriptSig := []; nSequence := 30 |} ];
         CMutableTransaction.vout := []; CMutableTransaction.nLockTime := 0 |} "1"
  = Some [ {| prevout := {| COutPoint.hash := []; COutPoint.n := 0 |};
              scriptSig := []; nSequence := 10 |};
           {| prevout := {| COutPoint.hash := []; COutPoint.n := 2 |};
              scriptSig := []; nSequence := 30 |} ].
Proof. vm_compute. reflexivity. Qed.

Example MutateTxDelInput_past_the_end :
  MutateTxDelInput (fun _ => 5)
    {| CMutableTransaction.nVersion := 1;
       CMutableTransaction.vin :=
         [ {| prevout := {| COutPoint.hash := []; COutPoint.n := 0 |};
              scriptSig := []; nSequence := 0 |} ];
       CMutableTransaction.vout := []; CMutableTransaction.nLockTime := 0 |} "5" = None.
Proof. vm_compute. reflexivity. Qed.

Example GetInterest_flat_after_a_year :
  at_startup (fun R => GetInterest R COIN 100 500000 = GetInterest R COIN 100 600000).
Proof.
  apply at_startup_intro. intros R HR.
  rewrite !(GetInterest_elapsed R COIN 100) by
    first [exact HR | unfold MAX_MONEY, COIN, INT_MAX; lia].
  rewrite !elapsed_saturated by (rewrite ?MAXINTERESTPERIOD_eq; lia).
  reflexivity.
Qed.
